(** * memory-graph-workshop: a shallow embedding of the chat client, the
    memory-graph view and the memory repository, with the properties that
    the specification states about them.

    Layout:
    - [Js]               the few JavaScript primitives the front end relies on;
    - [Http]             requests, responses and the monad of asynchronous
                         client code (frontend/lib/api.ts goes through axios);
    - [Api]              frontend/lib/api.ts ([chatAPI]);
    - [ChatInterface]    components/ChatInterface.tsx (the [sendMessage] handler);
    - [MemoryGraphView]  components/MemoryGraphView.tsx (filters and selection);
    - [MemoryRepository], [PreferenceEngine], [Orchestrator]
                         the back-end core; its Python sources are not among
                         the sources at hand, so these three modules are
                         modelled from the specification;
    - [ApiRest]          the other operations of [chatAPI];
    - [ChatView]         the other handlers of the chat interface;
    - [Sidebar]          components/Sidebar.tsx (deleting a thread);
    - [GraphStats], [GraphLoad]
                         the statistics, the loading and the container of
                         the memory-graph view;
    - [Wire]             the requests of the operations of [chatAPI].
    The definitions come first; the properties follow, section by
    section, in the same order. *)

From Stdlib Require Import ZArith QArith Ascii String.
From stdpp Require Import gmap strings list fin_maps pretty.

Set Warnings "-register-all".
Open Scope string_scope.
Open Scope list_scope.

(* ===================================================================== *)
(** * JavaScript primitives *)
(* ===================================================================== *)

Module Js.

  (** Strings are sequences of code units; the embedding covers the code
      units below 256, one [ascii] each.  Of those, [String.prototype.trim]
      strips TAB, LF, VT, FF, CR, SPACE and NBSP. *)
Definition is_white_space (c : ascii) : bool :=
    let n := nat_of_ascii c in
    (n =? 9)%nat || (n =? 10)%nat || (n =? 11)%nat || (n =? 12)%nat ||
    (n =? 13)%nat || (n =? 32)%nat || (n =? 160)%nat.

Fixpoint trim_start (s : string) : string :=
    match s with
    | EmptyString => EmptyString
    | String c s' => if is_white_space c then trim_start s' else s
    end.

Definition trim_end (s : string) : string :=
    String.rev (trim_start (String.rev s)).

Definition trim (s : string) : string := trim_end (trim_start s).

  (** Truthiness of a string: only the empty string is falsy. *)
Definition truthy (s : string) : bool :=
    match s with EmptyString => false | _ => true end.

  (** [a || b] on an optional string ([undefined] and [''] are falsy). *)
Definition or_else (a : option string) (b : string) : string :=
    match a with
    | Some s => if truthy s then s else b
    | None => b
    end.

  (** [Number.prototype.toString] on an integer. *)
Definition toString (n : Z) : string := pretty n.

End Js.

(* ===================================================================== *)
(** * HTTP transport and asynchronous client code *)
(* ===================================================================== *)

Module Http.

Inductive Method := GET | POST | PUT | DELETE.

  (** JSON values, as far as request bodies need them. *)
Inductive Json :=
  | JNull
  | JBool (b : bool)
  | JNum (n : Z)
  | JStr (s : string)
  | JArr (items : list Json)
  | JObj (fields : list (string * Json)).

Record Request := mkRequest {
    req_method : Method;
    req_url : string;
    req_body : option Json
  }.

  (** What a rejected axios promise carries, as far as the client reads it:
      [error.response?.data?.detail]. *)
Record Error := mkError { err_detail : option string }.

Record Response (D : Type) := mkResponse { status : Z; data : D }.
Arguments mkResponse {D} _ _.
Arguments status {D} _.
Arguments data {D} _.

  (** Outcome of awaiting a promise. *)
Inductive Outcome (A : Type) :=
  | Resolved (a : A)
  | Rejected (e : Error).
Arguments Resolved {A} _.
Arguments Rejected {A} _.

  (** Asynchronous client code over a back end that answers with payloads
      of type [D]: it returns, throws, or issues a request and continues
      with the outcome. *)
Inductive Async (D A : Type) :=
  | Ret (a : A)
  | Throw (e : Error)
  | Call (req : Request) (k : Outcome (Response D) -> Async D A).
Arguments Ret {D A} _.
Arguments Throw {D A} _.
Arguments Call {D A} _ _.

Fixpoint bind {D A B} (m : Async D A) (f : A -> Async D B) : Async D B :=
    match m with
    | Ret a => f a
    | Throw e => Throw e
    | Call req k => Call req (fun o => bind (k o) f)
    end.

  (** [try { m } catch (e) { h e }] *)
Fixpoint try_catch {D A} (m : Async D A) (h : Error -> Async D A) : Async D A :=
    match m with
    | Ret a => Ret a
    | Throw e => h e
    | Call req k => Call req (fun o => try_catch (k o) h)
    end.

  (** [await api.<method>(url, body)]: a rejected promise throws. *)
Definition await_request {D} (req : Request) : Async D (Response D) :=
    Call req (fun o =>
      match o with
      | Resolved r => Ret r
      | Rejected e => Throw e
      end).

  (** Running client code against a back end: the requests issued, in
      order, and how the code finished. *)
Fixpoint run {D A} (backend : Request -> Outcome (Response D)) (m : Async D A)
    : list Request * Outcome A :=
    match m with
    | Ret a => ([], Resolved a)
    | Throw e => ([], Rejected e)
    | Call req k =>
        let '(reqs, o) := run backend (k (backend req)) in
        (req :: reqs, o)
    end.

End Http.

(** [Async D] is a monad; client code below is written with stdpp's
    [x ← m; k] notation, one [←] per [await]. *)
#[global] Instance async_ret {D} : MRet (Http.Async D) := fun A a => Http.Ret a.
#[global] Instance async_bind {D} : MBind (Http.Async D) :=
  fun A B f m => Http.bind m f.

(* ===================================================================== *)
(** * frontend/lib/api.ts *)
(* ===================================================================== *)

Module Api.
Import Http.

Record ToolCall := mkToolCall {
    name : string;
    arguments : Json;
    output : Json
  }.

Record ReasoningStep := mkReasoningStep {
    step_number : Z;
    reasoning : option string;
    tool_calls : list ToolCall
  }.

Record AgentContext := mkAgentContext {
    system_prompt : string;
    memory_enabled : bool;
    preferences_applied : option string;
    model : string;
    available_tools : list string
  }.

Record ChatResponse := mkChatResponse {
    response : string;
    reasoning_steps : list ReasoningStep;
    agent_context : option AgentContext;
    thread_id : option string
  }.

Record GraphNode := mkGraphNode {
    id : string;
    labels : list string;
    properties : list (string * Json)
  }.

Record GraphRelationship := mkGraphRelationship {
    rel_id : string;
    from : string;
    to : string;
    type : string;
    rel_properties : list (string * Json)
  }.

Record MemoryGraph := mkMemoryGraph {
    nodes : list GraphNode;
    relationships : list GraphRelationship
  }.

  (** [thread_id: threadId] with [threadId : string | null]. *)
Definition json_of_thread_id (threadId : option string) : Json :=
    match threadId with
    | Some t => JStr t
    | None => JNull
    end.

  (** The object literal [{ message, memory_enabled: memoryEnabled,
      thread_id: threadId }]. *)
Definition chat_body (message : string) (memoryEnabled : bool)
      (threadId : option string) : Json :=
    JObj [("message", JStr message);
          ("memory_enabled", JBool memoryEnabled);
          ("thread_id", json_of_thread_id threadId)].

Module chatAPI.

    (** [sendMessage(message, memoryEnabled = false, threadId = null)];
        an omitted argument is [None] and takes its default. *)
Definition sendMessage (message : string) (memoryEnabled : option bool)
        (threadId : option (option string)) : Async ChatResponse ChatResponse :=
      let memoryEnabled := default false memoryEnabled in
      let threadId := default None threadId in
      response ← await_request
         (mkRequest POST "/chat" (Some (chat_body message memoryEnabled threadId)));
      mret (data response).

    (** [healthCheck]: [try { ... return response.status === 200 }
        catch { return false }]. *)
Definition healthCheck {D} : Async D bool :=
      try_catch
        (response ← await_request (mkRequest GET "/health" None);
         mret (status response =? 200)%Z)
        (fun _ => mret false).

    (** [deleteThread(threadId)]: [DELETE /threads/${threadId}], returning
        [response.data.message]. *)
Definition deleteThread (threadId : string) : Async string string :=
      response ← await_request
         (mkRequest DELETE ("/threads/" +:+ threadId) None);
      mret (data response).

End chatAPI.

End Api.

(* ===================================================================== *)
(** * components/ChatInterface.tsx *)
(* ===================================================================== *)

Module ChatInterface.
Import Http.

Inductive Sender := user | agent.

Record Message := mkMessage {
  id : string;
  text : string;
  sender : Sender;
  timestamp : Z;
  reasoningSteps : option (list Api.ReasoningStep);
  agentContext : option Api.AgentContext
}.

(** A call of [toaster.create]. *)
Record Toast := mkToast {
  title : string;
  description : string;
  type : string;
  duration : Z
}.

(** Calls that the handler starts without awaiting them. *)
Inductive Task := LoadThreads.

(** The component state that the [sendMessage] handler reads or writes,
    with the toasts it raised and the tasks it started. *)
Record State := mkState {
  messages : list Message;
  inputValue : string;
  isLoading : bool;
  memoryEnabled : bool;
  activeThreadId : option string;
  toasts : list Toast;
  started : list Task
}.

Definition initial : State :=
  mkState [] "" false false None [] [].

Definition setMessages (f : list Message -> list Message) (st : State) : State :=
  mkState (f (messages st)) (inputValue st) (isLoading st) (memoryEnabled st)
          (activeThreadId st) (toasts st) (started st).

Definition setInputValue (v : string) (st : State) : State :=
  mkState (messages st) v (isLoading st) (memoryEnabled st)
          (activeThreadId st) (toasts st) (started st).

Definition setIsLoading (b : bool) (st : State) : State :=
  mkState (messages st) (inputValue st) b (memoryEnabled st)
          (activeThreadId st) (toasts st) (started st).

Definition setActiveThreadId (t : option string) (st : State) : State :=
  mkState (messages st) (inputValue st) (isLoading st) (memoryEnabled st)
          t (toasts st) (started st).

Definition toaster_create (t : Toast) (st : State) : State :=
  mkState (messages st) (inputValue st) (isLoading st) (memoryEnabled st)
          (activeThreadId st) (toasts st ++ [t]) (started st).

Definition start (t : Task) (st : State) : State :=
  mkState (messages st) (inputValue st) (isLoading st) (memoryEnabled st)
          (activeThreadId st) (toasts st) (started st ++ [t]).

(** Truthiness of a [string | null]. *)
Definition truthy_opt (s : option string) : bool :=
  match s with Some s => Js.truthy s | None => false end.

Definition apology : string :=
  "Sorry, I encountered an error processing your request. Please try again.".

(** [try { body } catch (e) { handler e } finally { fin }] for a body and a
    handler that yield the next state; the handlers of this component do
    not throw. *)
Definition try_catch_finally {D S} (body : Async D S)
    (handler : Error -> Async D S) (fin : S -> S) : Async D S :=
  st ← try_catch body handler; mret (fin st).

Section Handler.

(** [clock k] is the k-th reading of the clock ([Date.now()], [new Date()])
    during one run of the handler. *)
Variable clock : nat -> Z.

(** The [try] block after the awaited call returned [response]. *)
Definition on_response (st : State) (response : Api.ChatResponse) : State :=
  let agentMessage :=
    mkMessage (Js.toString (clock 2 + 1)) (Api.response response) agent (clock 3)
              (Some (Api.reasoning_steps response)) (Api.agent_context response) in
  let st := setMessages (fun prev => prev ++ [agentMessage]) st in
  let st :=
    if truthy_opt (Api.thread_id response) && negb (truthy_opt (activeThreadId st))
    then setActiveThreadId (Api.thread_id response) st
    else st in
  start LoadThreads st.

(** The [catch] block. *)
Definition on_error (st : State) (error : Error) : State :=
  let st := toaster_create
    (mkToast "Error" (Js.or_else (err_detail error) "Failed to send message")
             "error" 5000) st in
  let errorMessage :=
    mkMessage (Js.toString (clock 2 + 1)) apology agent (clock 3) None None in
  setMessages (fun prev => prev ++ [errorMessage]) st.

Definition sendMessage (st : State) : Async Api.ChatResponse State :=
  if negb (Js.truthy (Js.trim (inputValue st))) || isLoading st then mret st
  else
    let userMessage :=
      mkMessage (Js.toString (clock 0)) (inputValue st) user (clock 1) None None in
    let messageText := inputValue st in
    let st := setMessages (fun prev => prev ++ [userMessage]) st in
    let st := setInputValue "" st in
    let st := setIsLoading true st in
    try_catch_finally
      (response ← Api.chatAPI.sendMessage messageText (Some (memoryEnabled st))
                    (Some (activeThreadId st));
       mret (on_response st response))
      (fun error => mret (on_error st error))
      (setIsLoading false).

End Handler.

End ChatInterface.

(* ===================================================================== *)
(** * components/MemoryGraphView.tsx *)
(* ===================================================================== *)

Module MemoryGraphView.
Import Http.
Import Api.

Record NvlNode := mkNvlNode {
  nvl_id : string;
  caption : string;
  size : Z;
  color : string;
  selected : bool;
  node_data : option GraphNode
}.

Record NvlRelationship := mkNvlRelationship {
  nvl_rel_id : string;
  nvl_from : string;
  nvl_to : string;
  nvl_caption : string;
  nvl_selected : bool
}.

Inductive MemoryType := short_term | user_profile | procedural.

Record MemoryTypeFilters := mkFilters {
  f_short_term : bool;
  f_user_profile : bool;
  f_procedural : bool
}.

(** [memoryFilters[memoryType]] *)
Definition filter_of (f : MemoryTypeFilters) (t : MemoryType) : bool :=
  match t with
  | short_term => f_short_term f
  | user_profile => f_user_profile f
  | procedural => f_procedural f
  end.

Record State := mkState {
  isLoading : bool;
  graphData : option MemoryGraph;
  error : option string;
  selectedNode : option GraphNode;
  selectedRelationship : option GraphRelationship;
  memoryFilters : MemoryTypeFilters
}.

Definition initial : State :=
  mkState false None None None None (mkFilters true true true).

(** [Array.prototype.includes] on strings. *)
Definition includes (l : list string) (s : string) : bool := bool_decide (s ∈ l).

Definition getNodeLabel (node : GraphNode) : string :=
  if includes (labels node) "Thread" then "Thread"
  else if includes (labels node) "Message" then "Message"
  else if includes (labels node) "ReasoningStep" then "ReasoningStep"
  else if includes (labels node) "ToolCall" then "ToolCall"
  else if includes (labels node) "Tool" then "Tool"
  else if includes (labels node) "UserPreference" then "UserPreference"
  else if includes (labels node) "PreferenceCategory" then "PreferenceCategory"
  else if includes (labels node) "Location" then "Location"
  else if includes (labels node) "Person" then "Person"
  else if includes (labels node) "Organization" then "Organization"
  else if includes (labels node) "Topic" then "Topic"
  else Js.or_else (head (labels node)) "Unknown".

Definition getNodeMemoryType (node : GraphNode) : MemoryType :=
  let nodeType := getNodeLabel node in
  if (nodeType =? "Thread")%string || (nodeType =? "Message")%string
  then short_term
  else if (nodeType =? "UserPreference")%string
       || (nodeType =? "PreferenceCategory")%string
       || (nodeType =? "Location")%string || (nodeType =? "Person")%string
       || (nodeType =? "Organization")%string || (nodeType =? "Topic")%string
  then user_profile
  else if (nodeType =? "ReasoningStep")%string
       || (nodeType =? "ToolCall")%string || (nodeType =? "Tool")%string
  then procedural
  else short_term.

(** [NODE_COLORS[nodeType] || '#CCCCCC'] *)
Definition node_color (nodeType : string) : string :=
  if (nodeType =? "Thread")%string then "#4C8EDA"
  else if (nodeType =? "Message")%string then "#57C7E3"
  else if (nodeType =? "ReasoningStep")%string then "#8DCC93"
  else if (nodeType =? "ToolCall")%string then "#F79767"
  else if (nodeType =? "Tool")%string then "#C990C0"
  else if (nodeType =? "UserPreference")%string then "#FFC454"
  else if (nodeType =? "PreferenceCategory")%string then "#DA7194"
  else if (nodeType =? "Location")%string then "#68BDF6"
  else if (nodeType =? "Person")%string then "#DE9BF9"
  else if (nodeType =? "Organization")%string then "#FB95AF"
  else if (nodeType =? "Topic")%string then "#A4DD00"
  else "#CCCCCC".

Definition base_size (nodeType : string) : Z :=
  if (nodeType =? "Thread")%string then 25
  else if (nodeType =? "Tool")%string then 22
  else if (nodeType =? "Message")%string then 18
  else if (nodeType =? "ReasoningStep")%string then 16
  else if (nodeType =? "ToolCall")%string then 14
  else if (nodeType =? "UserPreference")%string then 16
  else if (nodeType =? "PreferenceCategory")%string then 20
  else if (nodeType =? "Location")%string then 18
  else if (nodeType =? "Person")%string then 18
  else if (nodeType =? "Organization")%string then 18
  else if (nodeType =? "Topic")%string then 18
  else 15.

(** [filteredNodes] *)
Definition filteredNodes (st : State) : list GraphNode :=
  match graphData st with
  | None => []
  | Some g =>
      List.filter (fun node => filter_of (memoryFilters st) (getNodeMemoryType node))
                  (nodes g)
  end.

(** [new Set(filteredNodes.map(n => n.id))] *)
Definition visibleNodeIds (st : State) : gset string :=
  list_to_set (List.map id (filteredNodes st)).

(** [Set.prototype.has] *)
Definition has (s : gset string) (x : string) : bool := bool_decide (x ∈ s).

(** [filteredRelationships] *)
Definition filteredRelationships (st : State) : list GraphRelationship :=
  match graphData st with
  | None => []
  | Some g =>
      List.filter (fun rel => has (visibleNodeIds st) (from rel)
                              && has (visibleNodeIds st) (to rel))
                  (relationships g)
  end.

(** [selectedNode?.id === node.id] *)
Definition is_selected_node (st : State) (node : GraphNode) : bool :=
  match selectedNode st with
  | Some n => (id n =? id node)%string
  | None => false
  end.

Definition is_selected_relationship (st : State) (rel : GraphRelationship) : bool :=
  match selectedRelationship st with
  | Some r => (rel_id r =? rel_id rel)%string
  | None => false
  end.

Section Rendering.

(** The caption of a node is cut from its properties by [getNodeCaption];
    it is taken as given here. *)
Variable getNodeCaption : GraphNode -> string.

(** [nvlNodes]: what the visualization receives as nodes. *)
Definition nvlNodes (st : State) : list NvlNode :=
  List.map (fun node =>
    let nodeType := getNodeLabel node in
    let isSelected := is_selected_node st node in
    let baseSize := base_size nodeType in
    mkNvlNode (id node) (getNodeCaption node)
              (if isSelected then baseSize + 5 else baseSize)%Z
              (node_color nodeType) isSelected (Some node))
    (filteredNodes st).

End Rendering.

(** The rendering of one relationship. *)
Definition render_relationship (st : State) (rel : GraphRelationship) : NvlRelationship :=
  mkNvlRelationship (rel_id rel) (from rel) (to rel) (type rel)
                    (is_selected_relationship st rel).

(** [nvlRelationships]: what the visualization receives as relationships. *)
Definition nvlRelationships (st : State) : list NvlRelationship :=
  List.map (render_relationship st) (filteredRelationships st).

(** What can happen to the view. [loadGraphData] runs up to its [await]
    in one step and resumes, in a later step, with the graph or with the
    error of the request. *)
Inductive Event :=
| LoadGraphData
| GraphLoaded (data : MemoryGraph)
| GraphLoadFailed (err : Error)
| NodeClick (node : NvlNode)
| RelationshipClick (rel : NvlRelationship)
| CloseProperties
| ToggleFilter (t : MemoryType)
| ToggleAll.

Definition toggle (f : MemoryTypeFilters) (t : MemoryType) : MemoryTypeFilters :=
  match t with
  | short_term => mkFilters (negb (f_short_term f)) (f_user_profile f) (f_procedural f)
  | user_profile => mkFilters (f_short_term f) (negb (f_user_profile f)) (f_procedural f)
  | procedural => mkFilters (f_short_term f) (f_user_profile f) (negb (f_procedural f))
  end.

Definition no_data_message : string :=
  "No memory data available. Enable memory and chat to build your memory graph.".

Definition step (st : State) (ev : Event) : State :=
  match ev with
  | LoadGraphData =>
      mkState true (graphData st) None None None (memoryFilters st)
  | GraphLoaded data =>
      mkState false (Some data)
              (if (length (nodes data) =? 0)%nat then Some no_data_message else error st)
              (selectedNode st) (selectedRelationship st) (memoryFilters st)
  | GraphLoadFailed err =>
      mkState false (graphData st)
              (Some (Js.or_else (err_detail err) "Failed to load memory graph"))
              (selectedNode st) (selectedRelationship st) (memoryFilters st)
  | NodeClick node =>
      match node_data node with
      | Some originalData =>
          mkState (isLoading st) (graphData st) (error st)
                  (Some originalData) None (memoryFilters st)
      | None => st
      end
  | RelationshipClick rel =>
      match graphData st with
      | None => st
      | Some g =>
          match List.find (fun r => (rel_id r =? nvl_rel_id rel)%string) (relationships g) with
          | Some fullRel =>
              mkState (isLoading st) (graphData st) (error st)
                      None (Some fullRel) (memoryFilters st)
          | None => st
          end
      end
  | CloseProperties =>
      mkState (isLoading st) (graphData st) (error st) None None (memoryFilters st)
  | ToggleFilter t =>
      mkState (isLoading st) (graphData st) (error st)
              (selectedNode st) (selectedRelationship st) (toggle (memoryFilters st) t)
  | ToggleAll =>
      let allEnabled := f_short_term (memoryFilters st)
                        && f_user_profile (memoryFilters st)
                        && f_procedural (memoryFilters st) in
      mkState (isLoading st) (graphData st) (error st)
              (selectedNode st) (selectedRelationship st)
              (mkFilters (negb allEnabled) (negb allEnabled) (negb allEnabled))
  end.

(** The state after a sequence of events, from the initial state. *)
Definition run (evs : list Event) : State := fold_left step evs initial.



End MemoryGraphView.

(* ===================================================================== *)
(** * The memory repository (back end) *)
(* ===================================================================== *)

Module MemoryRepository.

Inductive Sender := user | agent.

(** The enumerated preference categories. *)
Inductive Category :=
| topics_of_interest | detail_level | writing_style | topic_dislikes
| geographic_focus | news_sources | other.

#[global] Instance Category_eq_dec : EqDecision Category.
Proof. solve_decision. Defined.

Record Thread := mkThread {
  thread_id : string;
  title : option string;
  created_at : Z;
  updated_at : Z;
  last_message_at : option Z
}.

Record Message := mkMessage {
  msg_id : string;
  msg_thread_id : string;
  msg_text : string;
  msg_sender : Sender;
  msg_timestamp : Z;
  msg_reasoning_steps : option string;
  msg_agent_context : option string
}.

Record ReasoningStep := mkReasoningStep {
  step_id : string;
  step_number : nat;
  reasoning_text : option string;
  step_message_id : string;
  step_thread_id : string
}.

Record ToolCall := mkToolCall {
  tc_id : string;
  tc_step_id : string;
  tc_timestamp : Z;
  tc_arguments : string;
  tc_output : string
}.

Record Tool := mkTool {
  tool_name : string;
  tool_description : string;
  tool_created_at : Z;
  last_used_at : Z;
  usage_count : nat
}.

Record UserPreference := mkUserPreference {
  pref_id : string;
  pref_category : Category;
  preference : string;
  pref_context : string;
  confidence : Q;
  pref_created_at : Z;
  last_updated : Z
}.

Record PreferenceCategory := mkPreferenceCategory {
  cat_name : Category;
  cat_description : string
}.

(** Episodic memory: Thread and Message nodes by id, with the
    [FIRST_MESSAGE] pointer of each thread and the [NEXT_MESSAGE] edges. *)
Record Episodic := mkEpisodic {
  threads : gmap string Thread;
  messages : gmap string Message;
  first_message : gmap string string;
  next_message : gmap string string
}.

(** Procedural memory: ReasoningStep and ToolCall nodes by id, the Tool
    nodes in creation order, and the [NEXT_STEP], [USES_TOOL]
    (step, tool call) and [INSTANCE_OF] (tool call, tool name) edges. *)
Record Procedural := mkProcedural {
  steps : gmap string ReasoningStep;
  tool_calls : gmap string ToolCall;
  tools : list Tool;
  next_step : gmap string string;
  uses_tool : list (string * string);
  instance_of : gmap string string
}.

(** Declarative memory: UserPreference and PreferenceCategory nodes in
    creation order and the [IN_CATEGORY] edges. *)
Record Declarative := mkDeclarative {
  preferences : list UserPreference;
  categories : list PreferenceCategory;
  in_category : list (string * Category)
}.

(** The memory graph, with the supply of identifiers of its writer. *)
Record Store := mkStore {
  episodic : Episodic;
  procedural : Procedural;
  declarative : Declarative;
  next_id : nat
}.

Definition empty : Store :=
  mkStore (mkEpisodic ∅ ∅ ∅ ∅) (mkProcedural ∅ ∅ [] ∅ [] ∅)
          (mkDeclarative [] [] []) 0.

(** Modelled from the spec: the generator of identifiers of the memory
    repository (back end, not among the sources). Identifiers are opaque
    unique strings that the writer assigns at creation time; the supply
    below hands out the n-th one. *)
Definition fresh_id (n : nat) : string := "id-" +:+ pretty n.

Inductive Error := NotFound.

Inductive Result (A : Type) :=
| Ok (a : A)
| Err (e : Error).
Arguments Ok {A} _.
Arguments Err {A} _.

(** Modelled from the spec: [create_thread(title?)] of the memory
    repository (back end, not among the sources). It generates the id, sets
    created_at = updated_at = now, no Messages yet; always succeeds. *)
Definition create_thread (title : option string) (now : Z) (st : Store)
  : Store * Thread :=
  let e := episodic st in
  let tid := fresh_id (next_id st) in
  let thread := mkThread tid title now now None in
  (mkStore (mkEpisodic (<[tid := thread]> (threads e)) (messages e)
                       (first_message e) (next_message e))
           (procedural st) (declarative st) (S (next_id st)),
   thread).

(** Following [NEXT_MESSAGE] from [cur], at most [fuel] nodes. *)
Fixpoint walk_from (next : gmap string string) (fuel : nat) (cur : string)
  : list string :=
  match fuel with
  | O => []
  | S fuel' =>
      cur :: match next !! cur with
             | Some n => walk_from next fuel' n
             | None => []
             end
  end.

(** Modelled from the spec: the chain walk of the memory repository (back
    end, not among the sources). The message order of a thread is
    reconstructed strictly by walking [FIRST_MESSAGE] then [NEXT_MESSAGE].
    A chain has no more nodes than there are Messages, which bounds the
    walk. *)
Definition chain (e : Episodic) (tid : string) : list string :=
  match first_message e !! tid with
  | Some m => walk_from (next_message e) (size (messages e)) m
  | None => []
  end.

(** Modelled from the spec: [append_message] of the memory repository
    (back end, not among the sources). It fails with [NotFound] if the
    thread is unknown; otherwise it creates the Message, sets it as
    [FIRST_MESSAGE] if the thread has no Messages, else appends it after
    the current last Message (found by walking the chain) via
    [NEXT_MESSAGE], and updates updated_at and last_message_at. *)
Definition append_message (tid : string) (sender : Sender) (text : string)
    (reasoning_steps agent_context : option string) (now : Z) (st : Store)
  : Store * Result Message :=
  let e := episodic st in
  match threads e !! tid with
  | None => (st, Err NotFound)
  | Some th =>
      let mid := fresh_id (next_id st) in
      let msg := mkMessage mid tid text sender now reasoning_steps agent_context in
      let th' := mkThread (thread_id th) (title th) (created_at th) now (Some now) in
      let '(first', next') :=
        match last (chain e tid) with
        | None => (<[tid := mid]> (first_message e), next_message e)
        | Some tail => (first_message e, <[tail := mid]> (next_message e))
        end in
      (mkStore (mkEpisodic (<[tid := th']> (threads e)) (<[mid := msg]> (messages e))
                           first' next')
               (procedural st) (declarative st) (S (next_id st)),
       Ok msg)
  end.

(** Modelled from the spec: [get_thread] of the memory repository (back
    end, not among the sources). It returns the thread with its Messages
    in chain order; no timestamp is consulted. *)
Definition get_thread (tid : string) (st : Store) : Result (Thread * list Message) :=
  let e := episodic st in
  match threads e !! tid with
  | None => Err NotFound
  | Some th => Ok (th, omap (fun mid => messages e !! mid) (chain e tid))
  end.

(** A tool call as the orchestrator hands it over. *)
Record ToolCallInput := mkToolCallInput {
  in_name : string;
  in_arguments : string;
  in_output : string
}.

Record StepInput := mkStepInput {
  in_reasoning_text : option string;
  in_tool_calls : list ToolCallInput
}.

(** A further reference to a Tool: usage_count is incremented and
    last_used_at updated. *)
Definition touch_tool (now : Z) (t : Tool) : Tool :=
  mkTool (tool_name t) (tool_description t) (tool_created_at t) now
         (S (usage_count t)).

Definition has_tool (name : string) (ts : list Tool) : bool :=
  bool_decide (name ∈ tool_name <$> ts).

Section Procedural.

(** The description of a tool comes with the tool schema of the agent. *)
Variable describe : string -> string.

(** Modelled from the spec: the upsert of a Tool by the memory repository
    (back end, not among the sources). The first ToolCall referencing a
    name creates the Tool with usage_count = 1; every subsequent reference
    increments usage_count and updates last_used_at, in place. *)
Definition upsert_tool (name : string) (now : Z) (ts : list Tool) : list Tool :=
  if has_tool name ts
  then (fun t => if bool_decide (tool_name t = name) then touch_tool now t else t) <$> ts
  else ts ++ [mkTool name (describe name) now now 1].

(** One tool call of step [sid]: the ToolCall node, the upsert of its Tool,
    and the edges ReasoningStep -> ToolCall -> Tool. *)
Definition add_tool_call (sid : string) (now : Z)
    (acc : Procedural * nat) (tc : ToolCallInput) : Procedural * nat :=
  let '(p, n) := acc in
  let tcid := fresh_id n in
  let node := mkToolCall tcid sid now (in_arguments tc) (in_output tc) in
  (mkProcedural (steps p) (<[tcid := node]> (tool_calls p))
                (upsert_tool (in_name tc) now (tools p))
                (next_step p) (uses_tool p ++ [(sid, tcid)])
                (<[tcid := in_name tc]> (instance_of p)),
   S n).

(** Step number [i] of message [mid]: the ReasoningStep node, the
    [NEXT_STEP] edge from the previous step, and its tool calls.  The
    accumulator carries the previous step and the number of this one. *)
Definition add_step (mid tid : string) (now : Z)
    (acc : Procedural * nat * option string * nat) (s : StepInput)
  : Procedural * nat * option string * nat :=
  let '(p, n, prev, i) := acc in
  let sid := fresh_id n in
  let node := mkReasoningStep sid i (in_reasoning_text s) mid tid in
  let next' := match prev with
               | Some prev_id => <[prev_id := sid]> (next_step p)
               | None => next_step p
               end in
  let p1 := mkProcedural (<[sid := node]> (steps p)) (tool_calls p) (tools p)
                         next' (uses_tool p) (instance_of p) in
  let '(p2, n2) := foldl (add_tool_call sid now) (p1, S n) (in_tool_calls s) in
  (p2, n2, Some sid, S i).

(** Modelled from the spec: [append_reasoning_steps(message_id, steps)] of
    the memory repository (back end, not among the sources). It fails
    with [NotFound] if the message is unknown; otherwise, for
    i = 1..N, it creates step i, chains it from step i-1 and records its
    tool calls. *)
Definition append_reasoning_steps (mid : string) (ss : list StepInput) (now : Z)
    (st : Store) : Store * Result unit :=
  match messages (episodic st) !! mid with
  | None => (st, Err NotFound)
  | Some msg =>
      let '(p, n, _, _) :=
        foldl (add_step mid (msg_thread_id msg) now)
              (procedural st, next_id st, None, 1) ss in
      (mkStore (episodic st) p (declarative st) n, Ok tt)
  end.

End Procedural.

(** The thread of a tool call is the thread of its reasoning step. *)
Definition tool_call_thread (p : Procedural) (tc : ToolCall) : option string :=
  step_thread_id <$> steps p !! tc_step_id tc.

(** The Message, ReasoningStep and ToolCall nodes of a thread. *)
Definition messages_of (tid : string) (e : Episodic) : gmap string Message :=
  filter (fun kv : string * Message => msg_thread_id (snd kv) = tid) (messages e).

Definition steps_of (tid : string) (p : Procedural) : gmap string ReasoningStep :=
  filter (fun kv : string * ReasoningStep => step_thread_id (snd kv) = tid) (steps p).

Definition tool_calls_of (tid : string) (p : Procedural) : gmap string ToolCall :=
  filter (fun kv : string * ToolCall => tool_call_thread p (snd kv) = Some tid)
         (tool_calls p).

(** Modelled from the spec: [delete_thread] of the memory repository
    (back end, not among the sources; the client only sends the request).
    It cascades to all Messages, ReasoningSteps and ToolCalls of the
    thread, with the relationships attached to the deleted nodes; Tool
    nodes and the declarative memory are not touched. *)
Definition delete_thread (tid : string) (st : Store) : Store :=
  let e := episodic st in
  let p := procedural st in
  let dead_messages : gset string := dom (messages_of tid e) in
  let dead_steps : gset string := dom (steps_of tid p) in
  let dead_calls : gset string := dom (tool_calls_of tid p) in
  mkStore
    (mkEpisodic
       (delete tid (threads e))
       (filter (fun kv : string * Message => msg_thread_id (snd kv) ≠ tid) (messages e))
       (delete tid (first_message e))
       (filter (fun kv : string * string =>
                  (fst kv ∉ dead_messages) ∧ (snd kv ∉ dead_messages)) (next_message e)))
    (mkProcedural
       (filter (fun kv : string * ReasoningStep => step_thread_id (snd kv) ≠ tid)
               (steps p))
       (filter (fun kv : string * ToolCall => tool_call_thread p (snd kv) ≠ Some tid)
               (tool_calls p))
       (tools p)
       (filter (fun kv : string * string =>
                  (fst kv ∉ dead_steps) ∧ (snd kv ∉ dead_steps)) (next_step p))
       (List.filter (fun kv : string * string =>
                  bool_decide ((fst kv ∉ dead_steps) ∧ (snd kv ∉ dead_calls))) (uses_tool p))
       (filter (fun kv : string * string => fst kv ∉ dead_calls) (instance_of p)))
    (declarative st)
    (next_id st).

(** The operations of the repository, and their replies. *)
Inductive Op :=
| CreateThread (title : option string) (now : Z)
| AppendMessage (tid : string) (sender : Sender) (text : string)
                (reasoning_steps agent_context : option string) (now : Z)
| AppendReasoningSteps (mid : string) (ss : list StepInput) (now : Z)
| DeleteThread (tid : string).

Inductive Reply :=
| ThreadCreated (t : Thread)
| MessageAppended (m : Message)
| StepsAppended
| ThreadDeleted
| Failed (e : Error).

Definition reply_of_message (r : Result Message) : Reply :=
  match r with
  | Ok m => MessageAppended m
  | Err e => Failed e
  end.

Definition reply_of_steps (r : Result unit) : Reply :=
  match r with
  | Ok _ => StepsAppended
  | Err e => Failed e
  end.

Section Run.

Variable describe : string -> string.

Definition exec (st : Store) (op : Op) : Store * Reply :=
  match op with
  | CreateThread title now =>
      let '(st', t) := create_thread title now st in (st', ThreadCreated t)
  | AppendMessage tid sender text rs ctx now =>
      let '(st', r) := append_message tid sender text rs ctx now st in
      (st', reply_of_message r)
  | AppendReasoningSteps mid ss now =>
      let '(st', r) := append_reasoning_steps describe mid ss now st in
      (st', reply_of_steps r)
  | DeleteThread tid => (delete_thread tid st, ThreadDeleted)
  end.

(** A history: the operations so far, each with its reply. *)
Definition History := list (Op * Reply).

Definition exec_logged (acc : Store * History) (op : Op) : Store * History :=
  let '(st', r) := exec acc.1 op in (st', acc.2 ++ [(op, r)]).

Definition run_from (st : Store) (ops : list Op) : Store * History :=
  foldl exec_logged (st, []) ops.

Definition run (ops : list Op) : Store * History := run_from empty ops.

End Run.

(** The Messages created for thread [tid], in creation order. *)
Definition created_for (tid : string) (h : History) : list string :=
  omap (fun entry =>
          match entry with
          | (AppendMessage tid' _ _ _ _ _, MessageAppended m) =>
              if bool_decide (tid' = tid) then Some (msg_id m) else None
          | _ => None
          end) h.

(** The tool references of an operation that succeeded, in order: the
    name of the tool and the time of the reference. *)
Definition references_of (entry : Op * Reply) : list (string * Z) :=
  match entry with
  | (AppendReasoningSteps _ ss now, StepsAppended) =>
      (fun tc => (in_name tc, now)) <$> concat (in_tool_calls <$> ss)
  | _ => []
  end.

Definition references (h : History) : list (string * Z) :=
  concat (references_of <$> h).

(** The times at which [name] was referenced, in order. *)
Definition reference_times (name : string) (refs : list (string * Z)) : list Z :=
  snd <$> List.filter (fun r => bool_decide (fst r = name)) refs.

(** The number of ToolCalls that referenced [name]. *)
Definition reference_count (name : string) (h : History) : nat :=
  length (reference_times name (references h)).

(** The Tool nodes with a given name. *)
Definition tools_named (name : string) (st : Store) : list Tool :=
  List.filter (fun t => bool_decide (tool_name t = name)) (tools (procedural st)).

(** What the nodes named [name] record: usage_count, created_at and
    last_used_at of each. *)
Definition tool_summary (t : Tool) : nat * Z * Z :=
  (usage_count t, tool_created_at t, last_used_at t).

Definition summaries (name : string) (ts : list Tool) : list (nat * Z * Z) :=
  tool_summary <$> List.filter (fun t => bool_decide (tool_name t = name)) ts.

(** What references at [times] should leave: no node if there was none,
    else one node that counts them, created at the first and last used at
    the last. *)
Definition summary_of_times (times : list Z) : list (nat * Z * Z) :=
  match times with
  | [] => []
  | t0 :: _ => [(length times, t0, default t0 (last times))]
  end.

(** An operation with its timestamp erased, or set. *)
Definition set_time (now : Z) (op : Op) : Op :=
  match op with
  | CreateThread title _ => CreateThread title now
  | AppendMessage tid sender text rs ctx _ => AppendMessage tid sender text rs ctx now
  | AppendReasoningSteps mid ss _ => AppendReasoningSteps mid ss now
  | DeleteThread tid => DeleteThread tid
  end.

Definition erase_time (op : Op) : Op := set_time 0 op.

(** The same operations with the k-th one at time [clock k]. *)
Definition retime (clock : nat -> Z) (ops : list Op) : list Op :=
  imap (fun k op => set_time (clock k) op) ops.

(** The ids of the Messages of a thread, in the order [get_thread] returns
    them. *)
Definition thread_order (tid : string) (st : Store) : option (list string) :=
  match get_thread tid st with
  | Ok (_, msgs) => Some (msg_id <$> msgs)
  | Err _ => None
  end.

(** The identifiers that recording some steps takes from the supply. *)
Definition ids_needed (ss : list StepInput) : nat :=
  sum_list ((fun s => S (length (in_tool_calls s))) <$> ss).

(** ** The invariant of the episodic memory *)

(** [l] is linked by [next]: each element points to its successor and the
    last one points nowhere. *)
Fixpoint linked (next : gmap string string) (l : list string) : Prop :=
  match l with
  | [] => True
  | a :: l' =>
      match l' with
      | [] => next !! a = None
      | b :: _ => next !! a = Some b /\ linked next l'
      end
  end.

(** [l] is the chain of thread [tid]: [FIRST_MESSAGE] points to its head
    and [NEXT_MESSAGE] links it. *)
Definition chain_of (e : Episodic) (tid : string) (l : list string) : Prop :=
  first_message e !! tid = head l /\ linked (next_message e) l.

(** [id] was handed out by the supply before it reached [n]. *)
Definition issued (n : nat) (id : string) : Prop :=
  exists k, k < n /\ id = fresh_id k.

(** What every history maintains. *)
Record consistent (st : Store) (h : History) : Prop := mkConsistent {
  inv_chain : forall tid,
    is_Some (threads (episodic st) !! tid) ->
    chain_of (episodic st) tid (created_for tid h);
  inv_member : forall tid mid,
    is_Some (threads (episodic st) !! tid) ->
    mid ∈ created_for tid h ->
    exists m, messages (episodic st) !! mid = Some m /\ msg_id m = mid;
  inv_thread_of : forall mid m,
    messages (episodic st) !! mid = Some m ->
    mid ∈ created_for (msg_thread_id m) h;
  inv_owner : forall tid tid' mid,
    mid ∈ created_for tid h -> mid ∈ created_for tid' h -> tid = tid';
  inv_nodup : forall tid, NoDup (created_for tid h);
  inv_created_issued : forall tid mid,
    mid ∈ created_for tid h -> issued (next_id st) mid /\ issued (next_id st) tid;
  inv_threads_issued : forall tid,
    is_Some (threads (episodic st) !! tid) -> issued (next_id st) tid;
  inv_first : forall tid,
    is_Some (first_message (episodic st) !! tid) ->
    is_Some (threads (episodic st) !! tid);
  inv_next : forall a b,
    next_message (episodic st) !! a = Some b ->
    is_Some (messages (episodic st) !! a)
}.

(** What the walk depends on: which threads exist, the thread of each
    Message, the two kinds of pointers and the supply. *)
Definition same_shape (st st' : Store) : Prop :=
  dom (threads (episodic st)) = dom (threads (episodic st'))
  /\ msg_thread_id <$> messages (episodic st) = msg_thread_id <$> messages (episodic st')
  /\ first_message (episodic st) = first_message (episodic st')
  /\ next_message (episodic st) = next_message (episodic st')
  /\ next_id st = next_id st'.

End MemoryRepository.

(* ===================================================================== *)
(** * The preference extraction and merge engine (back end) *)
(* ===================================================================== *)

Module PreferenceEngine.
Import MemoryRepository.

(** A candidate, as extracted from one turn. *)
Record Candidate := mkCandidate {
  cand_category : Category;
  cand_preference : string;
  cand_context : string;
  cand_confidence : Q
}.

(** Confidences are compared exactly; the maximum is one of its two
    arguments, so no rounding is involved. *)
Definition max_confidence (existing candidate : Q) : Q :=
  if Qle_bool existing candidate then candidate else existing.

Definition category_description (c : Category) : string :=
  match c with
  | topics_of_interest => "News topics the user is interested in"
  | detail_level => "Preferred level of detail (brief, detailed, etc.)"
  | writing_style => "Preferred communication style"
  | topic_dislikes => "Topics to avoid or minimize"
  | geographic_focus => "Geographic regions of interest"
  | news_sources => "Preferred news sources"
  | other => "Other user preferences"
  end.

(** A PreferenceCategory is created on first use. *)
Definition upsert_category (c : Category) (cs : list PreferenceCategory)
  : list PreferenceCategory :=
  if bool_decide (c ∈ cat_name <$> cs) then cs
  else cs ++ [mkPreferenceCategory c (category_description c)].

Section Merge.

(** The judgement "semantic duplicate" is a policy of the implementation,
    deterministic for identical inputs: [similar existing candidate]. *)
Variable similar : string -> string -> bool.

(** An existing preference of the same category that is judged a duplicate
    of the candidate. *)
Definition duplicate_of (c : Candidate) (p : UserPreference) : Prop :=
  pref_category p = cand_category c ∧
  similar (preference p) (cand_preference c) = true.

(** Modelled from the spec: the update step of the preference merge (back
    end, not among the sources). The update of a duplicate replaces the
    preference text by the candidate's, sets confidence to
    max(existing, candidate) and last_updated to now. *)
Definition update_preference (c : Candidate) (now : Z) (p : UserPreference)
  : UserPreference :=
  mkUserPreference (pref_id p) (pref_category p) (cand_preference c)
                   (pref_context p)
                   (max_confidence (confidence p) (cand_confidence c))
                   (pref_created_at p) now.

(** Modelled from the spec: the merge policy of the preference engine (back
    end, not among the sources), for one candidate: look up the
    existing preferences of the same category; update the one judged a
    duplicate, if any; otherwise insert a new UserPreference with a fresh
    id, with its category upserted. *)
Definition merge_candidate (c : Candidate) (now : Z) (st : Store) : Store :=
  let d := declarative st in
  match list_find (duplicate_of c) (preferences d) with
  | Some (i, p) =>
      mkStore (episodic st) (procedural st)
              (mkDeclarative (<[i := update_preference c now p]> (preferences d))
                             (categories d) (in_category d))
              (next_id st)
  | None =>
      let pid := fresh_id (next_id st) in
      let p := mkUserPreference pid (cand_category c) (cand_preference c)
                                (cand_context c) (cand_confidence c) now now in
      mkStore (episodic st) (procedural st)
              (mkDeclarative (preferences d ++ [p])
                             (upsert_category (cand_category c) (categories d))
                             (in_category d ++ [(pid, cand_category c)]))
              (S (next_id st))
  end.

(** All candidates of one turn, in order. *)
Definition merge_candidates (cs : list Candidate) (now : Z) (st : Store) : Store :=
  foldl (fun st c => merge_candidate c now st) st cs.

End Merge.


End PreferenceEngine.

(* ===================================================================== *)
(** * The agent orchestrator: tool execution with retry (back end) *)
(* ===================================================================== *)

Module Orchestrator.
Import Http.

(** Structured tool arguments, by parameter name. *)
Abbreviation Args := (gmap string Json).

(** A structured tool result; [primary] is its primary collection. *)
Record ToolResult := mkToolResult {
  primary : list Json;
  details : list (string * Json)
}.

(** An attempt as it is recorded: the tool, the arguments it was called
    with and what it returned. *)
Record ToolCall := mkToolCall {
  name : string;
  arguments : Args;
  output : ToolResult
}.



Section ToolExecution.

(** The domain content tools, called by name; [W] is whatever a tool (or a
    stub of one) may keep between two calls. *)
Context {W : Type}.
Variable call : string -> Args -> W -> ToolResult * W.

(** The limit, radius or range parameter of each tool, and the fixed
    escalation factor. *)
Variable escalation_param : string -> string.
Variable escalation_factor : Z.






End ToolExecution.



End Orchestrator.

(* ===================================================================== *)
(** * frontend/lib/api.ts: the other operations of [chatAPI] *)
(* ===================================================================== *)

Module ApiRest.
Import Http Api.

Record ThreadInfo := mkThreadInfo {
  ti_id : string;
  ti_title : string;
  ti_created_at : option string;
  ti_updated_at : option string;
  ti_last_message_at : option string;
  ti_message_count : Z
}.

Record ThreadMessage := mkThreadMessage {
  tm_id : string;
  tm_text : string;
  tm_sender : ChatInterface.Sender;
  tm_timestamp : option string;
  tm_reasoning_steps : option (list ReasoningStep);
  tm_agent_context : option AgentContext
}.

Record ThreadDetail := mkThreadDetail {
  td_id : string;
  td_title : string;
  td_created_at : option string;
  td_updated_at : option string;
  td_last_message_at : option string;
  td_messages : list ThreadMessage;
  td_message_count : Z
}.

Record Category := mkCategory { categories : list string }.



(** Payloads of which the client reads [.message]. *)
Record MessageReply := mkMessageReply { message : string }.


Module chatAPI.




Definition clearPreferences : Async MessageReply string :=
  response ← await_request (mkRequest POST "/preferences/clear" None);
  mret (message (data response)).


Definition getMemoryGraph : Async MemoryGraph MemoryGraph :=
  response ← await_request (mkRequest GET "/preferences/graph" None);
  mret (data response).

Definition getThreads : Async (list ThreadInfo) (list ThreadInfo) :=
  response ← await_request (mkRequest GET "/threads" None);
  mret (data response).

Definition getThread (threadId : string) : Async ThreadDetail ThreadDetail :=
  response ← await_request (mkRequest GET ("/threads/" +:+ threadId) None);
  mret (data response).



Definition getLastActiveThread : Async (option ThreadInfo) (option ThreadInfo) :=
  response ← await_request (mkRequest GET "/threads/last-active" None);
  mret (data response).

End chatAPI.

End ApiRest.

(* ===================================================================== *)
(** * components/ChatInterface.tsx: the other handlers *)
(* ===================================================================== *)

Module ChatView.
Import Http ApiRest.

(** The whole state of the component: the part that [sendMessage] works
    on, and the rest, with what was written by [console.error]. *)
Record View := mkView {
  chat : ChatInterface.State;
  isConnected : bool;
  threads : list ThreadInfo;
  sidebarOpen : bool;
  activeThreadTitle : string;
  memoryGraphOpen : bool;
  console : list string
}.

Definition initial : View :=
  mkView ChatInterface.initial false [] false "New Conversation" false [].

Definition on_chat (f : ChatInterface.State -> ChatInterface.State) (v : View) : View :=
  mkView (f (chat v)) (isConnected v) (threads v) (sidebarOpen v)
         (activeThreadTitle v) (memoryGraphOpen v) (console v).

Definition setIsConnected (b : bool) (v : View) : View :=
  mkView (chat v) b (threads v) (sidebarOpen v)
         (activeThreadTitle v) (memoryGraphOpen v) (console v).

Definition setThreads (ts : list ThreadInfo) (v : View) : View :=
  mkView (chat v) (isConnected v) ts (sidebarOpen v)
         (activeThreadTitle v) (memoryGraphOpen v) (console v).

Definition setSidebarOpen (b : bool) (v : View) : View :=
  mkView (chat v) (isConnected v) (threads v) b
         (activeThreadTitle v) (memoryGraphOpen v) (console v).

Definition setActiveThreadTitle (t : string) (v : View) : View :=
  mkView (chat v) (isConnected v) (threads v) (sidebarOpen v)
         t (memoryGraphOpen v) (console v).

Definition console_error (msg : string) (v : View) : View :=
  mkView (chat v) (isConnected v) (threads v) (sidebarOpen v)
         (activeThreadTitle v) (memoryGraphOpen v) (console v ++ [msg]).

Definition toast (title description type : string) (duration : Z) (v : View) : View :=
  on_chat (ChatInterface.toaster_create
             (ChatInterface.mkToast title description type duration)) v.

(** [checkConnection] *)
Definition checkConnection {D} (v : View) : Async D View :=
  try_catch
    (healthy ← Api.chatAPI.healthCheck;
     let v := setIsConnected healthy v in
     mret (if negb healthy
           then toast "Backend Disconnected"
                      "Unable to connect to the backend server" "error" 5000 v
           else v))
    (fun _ =>
       mret (toast "Connection Error" "Failed to connect to the backend"
                   "error" 5000 (setIsConnected false v))).

(** [loadThreads] *)
Definition loadThreads (v : View) : Async (list ThreadInfo) View :=
  try_catch
    (threadsList ← chatAPI.getThreads;
     mret (setThreads threadsList v))
    (fun _ => mret (console_error "Failed to load threads:" v)).

(** [loadLastActiveThread] *)
Definition loadLastActiveThread (v : View) : Async (option ThreadInfo) View :=
  try_catch
    (lastThread ← chatAPI.getLastActiveThread;
     mret match lastThread with
          | Some t =>
              setActiveThreadTitle (ti_title t)
                (on_chat (ChatInterface.setActiveThreadId (Some (ti_id t))) v)
          | None => v
          end)
    (fun _ => mret (console_error "Failed to load last active thread:" v)).

Section LoadThreadMessages.

(** [new Date(s)] as milliseconds, and the reading of the clock ([new
    Date()]) taken for the k-th message. *)
Variable parseDate : string -> Z.
Variable clock : nat -> Z.

(** The conversion of one message of the thread, at position [k]. *)
Definition loaded_message (k : nat) (msg : ThreadMessage) : ChatInterface.Message :=
  ChatInterface.mkMessage
    (tm_id msg) (tm_text msg) (tm_sender msg)
    (match tm_timestamp msg with
     | Some ts => if Js.truthy ts then parseDate ts else clock k
     | None => clock k
     end)
    (tm_reasoning_steps msg) (tm_agent_context msg).

(** [loadThreadMessages] *)
Definition loadThreadMessages (threadId : string) (v : View) : Async ThreadDetail View :=
  try_catch
    (thread ← chatAPI.getThread threadId;
     let v := setActiveThreadTitle (td_title thread) v in
     let loadedMessages := imap loaded_message (td_messages thread) in
     mret (on_chat (ChatInterface.setMessages (fun _ => loadedMessages)) v))
    (fun _ =>
       mret (toast "Load Failed" "Failed to load conversation messages" "error" 5000
                   (console_error "Failed to load thread messages:" v))).

End LoadThreadMessages.

(** [handleNewThread] *)
Definition handleNewThread (v : View) : View :=
  let v := on_chat (ChatInterface.setActiveThreadId None) v in
  let v := on_chat (ChatInterface.setMessages (fun _ => [])) v in
  let v := setActiveThreadTitle "New Conversation" v in
  setSidebarOpen false v.

(** [handleSelectThread] *)
Definition handleSelectThread (threadId : string) (v : View) : View :=
  setSidebarOpen false (on_chat (ChatInterface.setActiveThreadId (Some threadId)) v).

(** [threadId === activeThreadId] *)
Definition is_active (threadId : string) (v : View) : bool :=
  bool_decide (ChatInterface.activeThreadId (chat v) = Some threadId).

(** [handleDeleteThread]; the call of [loadThreads] is not awaited. *)
Definition handleDeleteThread (threadId : string) (v : View) : View :=
  let v := if is_active threadId v then handleNewThread v else v in
  on_chat (ChatInterface.start ChatInterface.LoadThreads) v.

(** [handleClearPreferences] *)
Definition handleClearPreferences (v : View) : Async MessageReply View :=
  let v := on_chat (ChatInterface.setIsLoading true) v in
  ChatInterface.try_catch_finally
    (_ ← chatAPI.clearPreferences;
     mret (toast "Preferences Cleared" "All stored preferences have been cleared"
                 "success" 3000 v))
    (fun _ => mret (toast "Clear Failed" "Failed to clear preferences" "error" 5000 v))
    (on_chat (ChatInterface.setIsLoading false)).



(** An input that consists of white space only. *)
Definition blank (s : string) : bool :=
  forallb Js.is_white_space (list_ascii_of_string s).





End ChatView.

(* ===================================================================== *)
(** * components/Sidebar.tsx *)
(* ===================================================================== *)

Module Sidebar.
Import Http.

Record State := mkState { deletingThreadId : option string }.

Definition initial : State := mkState None.

(** [handleDeleteThread(threadId, e)], with the [onDeleteThread] it was
    given. The toasts go to the toaster that the chat interface shares. *)
Definition handleDeleteThread (onDeleteThread : string -> ChatView.View -> ChatView.View)
    (threadId : string) (s : State * ChatView.View)
  : Async string (State * ChatView.View) :=
  if ChatInterface.truthy_opt (deletingThreadId (fst s)) then mret s
  else
    let s1 := (mkState (Some threadId), snd s) in
    ChatInterface.try_catch_finally
      (_ ← Api.chatAPI.deleteThread threadId;
       let v := ChatView.toast "Thread Deleted" "Thread has been deleted successfully"
                               "success" 2000 (snd s1) in
       mret (fst s1, onDeleteThread threadId v))
      (fun _ =>
         mret (fst s1, ChatView.toast "Delete Failed" "Failed to delete thread"
                                      "error" 5000 (snd s1)))
      (fun s' => (mkState None, snd s')).

End Sidebar.

(* ===================================================================== *)
(** * components/MemoryGraphView.tsx: statistics and what is displayed *)
(* ===================================================================== *)

Module GraphStats.
Import Api MemoryGraphView.

(** The names that a plain object inherits from [Object.prototype]; read
    as a key of the accumulator they do not yield a count. *)
Definition inherited_keys : list string :=
  ["constructor"; "__proto__"; "hasOwnProperty"; "isPrototypeOf";
   "propertyIsEnumerable"; "toLocaleString"; "toString"; "valueOf";
   "__defineGetter__"; "__defineSetter__"; "__lookupGetter__"; "__lookupSetter__"].

(** [acc[key] = (acc[key] || 0) + 1] on an accumulator that started as
    [{}]; [None] when the key is an inherited one, which this embedding
    does not follow further. *)
Definition bump (acc : option (gmap string nat)) (key : string)
  : option (gmap string nat) :=
  match acc with
  | Some m =>
      if bool_decide (key ∈ inherited_keys) then None
      else Some (<[key := S (default 0 (m !! key))]> m)
  | None => None
  end.

(** [graphStats.nodes]: every label of every node is counted. *)
Definition nodeStats (g : MemoryGraph) : option (gmap string nat) :=
  fold_left (fun acc node => fold_left bump (labels node) acc) (nodes g) (Some ∅).

(** [graphStats.relationships] *)
Definition relStats (g : MemoryGraph) : option (gmap string nat) :=
  fold_left (fun acc rel => bump acc (type rel)) (relationships g) (Some ∅).

(** [graphStats] *)
Definition graphStats (st : State)
  : option (gmap string nat) * option (gmap string nat) :=
  match graphData st with
  | None => (Some ∅, Some ∅)
  | Some g => (nodeStats g, relStats g)
  end.

(** The number of times [key] occurs in [keys]. *)
Definition occurrences (key : string) (keys : list string) : nat :=
  length (List.filter (fun k => bool_decide (k = key)) keys).

(** What the graph container shows. *)
Inductive Body :=
| Spinner
| ErrorPane (msg : string)
| Canvas (g : MemoryGraph)
| Blank.

(** [isLoading ? ... : error ? ... : graphData && graphData.nodes.length > 0
    ? ... : null]; an empty error message is falsy. *)
Definition body (st : State) : Body :=
  if isLoading st then Spinner
  else match error st with
       | Some msg => if Js.truthy msg then ErrorPane msg else
           match graphData st with
           | Some g => if (0 <? length (nodes g))%nat then Canvas g else Blank
           | None => Blank
           end
       | None =>
           match graphData st with
           | Some g => if (0 <? length (nodes g))%nat then Canvas g else Blank
           | None => Blank
           end
       end.

(** The filters with only one memory type on. *)
Definition only (t : MemoryType) : MemoryTypeFilters :=
  match t with
  | short_term => mkFilters true false false
  | user_profile => mkFilters false true false
  | procedural => mkFilters false false true
  end.

(** The label of the "Select All / Deselect All" button. *)
Definition select_all_label (f : MemoryTypeFilters) : string :=
  if f_short_term f && f_user_profile f && f_procedural f
  then "Deselect All" else "Select All".

End GraphStats.

(* ===================================================================== *)
(** * components/MemoryGraphView.tsx: loading the graph *)
(* ===================================================================== *)

Module GraphLoad.
Import Http Api MemoryGraphView.

Definition setIsLoading (b : bool) (st : State) : State :=
  mkState b (graphData st) (error st) (selectedNode st)
          (selectedRelationship st) (memoryFilters st).

Definition setGraphData (g : option MemoryGraph) (st : State) : State :=
  mkState (isLoading st) g (error st) (selectedNode st)
          (selectedRelationship st) (memoryFilters st).

Definition setError (e : option string) (st : State) : State :=
  mkState (isLoading st) (graphData st) e (selectedNode st)
          (selectedRelationship st) (memoryFilters st).

Definition setSelectedNode (n : option GraphNode) (st : State) : State :=
  mkState (isLoading st) (graphData st) (error st) n
          (selectedRelationship st) (memoryFilters st).

Definition setSelectedRelationship (r : option GraphRelationship) (st : State) : State :=
  mkState (isLoading st) (graphData st) (error st) (selectedNode st)
          r (memoryFilters st).

(** [loadGraphData], run from its call to its end. *)
Definition loadGraphData (st : State) : Async MemoryGraph State :=
  let st := setIsLoading true st in
  let st := setError None st in
  let st := setSelectedNode None st in
  let st := setSelectedRelationship None st in
  ChatInterface.try_catch_finally
    (data ← ApiRest.chatAPI.getMemoryGraph;
     let st := setGraphData (Some data) st in
     mret (if (length (nodes data) =? 0)%nat
           then setError (Some no_data_message) st
           else st))
    (fun err =>
       let errorMsg := Js.or_else (err_detail err) "Failed to load memory graph" in
       mret (setError (Some errorMsg) st))
    (setIsLoading false).

(** The events with which a load starts or ends. *)
Definition is_load_event (ev : Event) : bool :=
  match ev with
  | LoadGraphData | GraphLoaded _ | GraphLoadFailed _ => true
  | _ => false
  end.

End GraphLoad.

(* ===================================================================== *)
(** * frontend/lib/api.ts: the operations on the wire *)
(* ===================================================================== *)

Module Wire.
Import Http ApiRest.




End Wire.

(* ===================================================================== *)
(** * Properties of the client (frontend/lib/api.ts) *)
(* ===================================================================== *)

Section ClientProperties.
Import Http Api.

Ltac async_simpl :=
  unfold chatAPI.sendMessage, chatAPI.healthCheck, await_request,
         mbind, mret, async_bind, async_ret; simpl.

(** Running [sendMessage] issues the one request [POST /chat] and hands
    back the payload of its response; a rejection is passed on. *)
Lemma sendMessage_run backend message memoryEnabled threadId :
  let req := mkRequest POST "/chat"
               (Some (chat_body message (default false memoryEnabled)
                                (default None threadId))) in
  run backend (chatAPI.sendMessage message memoryEnabled threadId) =
  ([req], match backend req with
          | Resolved r => Resolved (data r)
          | Rejected e => Rejected e
          end).
Proof.
  async_simpl. by destruct (backend _).
Qed.

Lemma healthCheck_run D (backend : Request -> Outcome (Response D)) :
  run backend chatAPI.healthCheck =
  ([mkRequest GET "/health" None],
   Resolved match backend (mkRequest GET "/health" None) with
            | Resolved r => (status r =? 200)%Z
            | Rejected _ => false
            end).
Proof.
  async_simpl. by destruct (backend _).
Qed.

(** C5. Every call [sendMessage(message, memoryEnabled, threadId)] posts
    to [/chat] one request whose body has exactly the fields [message],
    [memory_enabled] and [thread_id], equal to the three arguments
    ([memory_enabled] is false and [thread_id] is null when the argument is
    omitted), and returns the data of the response: a [ChatResponse], with
    its response text, ordered reasoning steps, agent context and thread
    id. *)
Theorem sendMessage_posts_chat_turn :
  forall (backend : Request -> Outcome (Response ChatResponse))
         (message : string) (memoryEnabled : option bool)
         (threadId : option (option string)),
    let body :=
      JObj [("message", JStr message);
            ("memory_enabled", JBool match memoryEnabled with
                                     | Some b => b
                                     | None => false
                                     end);
            ("thread_id", match threadId with
                          | Some (Some t) => JStr t
                          | Some None | None => JNull
                          end)] in
    let req := mkRequest POST "/chat" (Some body) in
    fst (run backend (chatAPI.sendMessage message memoryEnabled threadId)) = [req]
    /\ snd (run backend (chatAPI.sendMessage message memoryEnabled threadId))
       = match backend req with
         | Resolved r =>
             Resolved (mkChatResponse (response (data r)) (reasoning_steps (data r))
                                      (agent_context (data r)) (thread_id (data r)))
         | Rejected e => Rejected e
         end.
Proof.
  intros backend message memoryEnabled threadId body req.
  assert (Hreq : req = mkRequest POST "/chat"
            (Some (chat_body message (default false memoryEnabled)
                             (default None threadId)))).
  { subst req body. unfold chat_body, json_of_thread_id.
    by destruct memoryEnabled, threadId as [[?|]|]. }
  rewrite sendMessage_run, <- Hreq. simpl.
  split; [done|].
  by destruct (backend req) as [[? []]|].
Qed.

(** C10. [healthCheck] is total and never passes an error on: whatever
    happens to [GET /health], it returns a boolean, which is true exactly
    when the request completed with status 200, and false whenever the
    request threw. *)
Theorem healthCheck_total :
  forall (D : Type) (backend : Request -> Outcome (Response D)),
    let req := mkRequest GET "/health" None in
    exists healthy : bool,
      run backend chatAPI.healthCheck = ([req], Resolved healthy)
      /\ (healthy = true <-> exists r, backend req = Resolved r /\ status r = 200%Z)
      /\ match backend req with
         | Resolved r => healthy = (status r =? 200)%Z
         | Rejected _ => healthy = false
         end.
Proof.
  intros D backend req. rewrite healthCheck_run. fold req.
  eexists. split; [reflexivity|].
  destruct (backend req) as [r|e] eqn:Hb; split; try done.
  - rewrite Z.eqb_eq. split; [eauto|]. by intros (r' & [= <-] & ?).
  - split; [discriminate|]. by intros (r' & ? & _).
Qed.

(** A back end that answers 204 is not reported healthy. *)
Example healthCheck_204 :
  run (fun _ => Resolved (mkResponse 204 tt)) chatAPI.healthCheck
  = ([mkRequest GET "/health" None], Resolved false).
Proof. reflexivity. Qed.

(** [sendMessage('hi')]: both optional arguments omitted. *)
Example sendMessage_defaults :
  fst (run (fun _ => Rejected (mkError None)) (chatAPI.sendMessage "hi" None None))
  = [mkRequest POST "/chat"
       (Some (JObj [("message", JStr "hi"); ("memory_enabled", JBool false);
                    ("thread_id", JNull)]))].
Proof. reflexivity. Qed.


End ClientProperties.

(* ===================================================================== *)
(** * Properties of the chat interface (components/ChatInterface.tsx) *)
(* ===================================================================== *)

Section AsyncLaws.
Import Http.
Context {D : Type} (backend : Request -> Outcome (Response D)).

(** Running [m >>= f]: the requests of [m], then those of [f]. *)
Lemma run_bind {A B} (m : Async D A) (f : A -> Async D B) :
  run backend (bind m f) =
  match run backend m with
  | (reqs, Resolved a) =>
      (reqs ++ fst (run backend (f a)), snd (run backend (f a)))
  | (reqs, Rejected e) => (reqs, Rejected e)
  end.
Proof.
  induction m as [a|e|req k IH]; simpl.
  - by destruct (run backend (f a)).
  - done.
  - rewrite IH. by destruct (run backend (k (backend req))) as [reqs [a|e]].
Qed.

(** Running [try { m } catch (e) { h e }]. *)
Lemma run_try_catch {A} (m : Async D A) (h : Error -> Async D A) :
  run backend (try_catch m h) =
  match run backend m with
  | (reqs, Resolved a) => (reqs, Resolved a)
  | (reqs, Rejected e) =>
      (reqs ++ fst (run backend (h e)), snd (run backend (h e)))
  end.
Proof.
  induction m as [a|e|req k IH]; simpl.
  - done.
  - by destruct (run backend (h e)).
  - rewrite IH. by destruct (run backend (k (backend req))) as [reqs [a|e]].
Qed.

End AsyncLaws.

Section ChatInterfaceProperties.
Import Http ChatInterface.

(** A string is truthy unless it is empty. *)
Lemma truthy_nonempty s : s <> "" -> Js.truthy s = true.
Proof. by destruct s. Qed.

(** [sendMessage] when the guard lets the turn through and the call to the
    service throws: the user message and the apology are appended, the
    toast is raised and the loading flag is down again. *)
Lemma sendMessage_run_rejected clock backend st e :
  Js.trim (inputValue st) <> "" ->
  isLoading st = false ->
  snd (run backend (Api.chatAPI.sendMessage (inputValue st)
                      (Some (memoryEnabled st)) (Some (activeThreadId st))))
  = Rejected e ->
  snd (run backend (sendMessage clock st)) =
  Resolved
    (mkState
       (messages st ++
          [mkMessage (Js.toString (clock 0)) (inputValue st) user (clock 1) None None;
           mkMessage (Js.toString (clock 2 + 1)) apology agent (clock 3) None None])
       "" false (memoryEnabled st) (activeThreadId st)
       (toasts st ++
          [mkToast "Error" (Js.or_else (err_detail e) "Failed to send message")
                   "error" 5000])
       (started st)).
Proof.
  intros Hinput Hloading Hcall.
  unfold sendMessage. rewrite (truthy_nonempty _ Hinput), Hloading.
  cbn -[Api.chatAPI.sendMessage run].
  unfold try_catch_finally, mbind, async_bind, mret, async_ret.
  rewrite run_bind, run_try_catch, run_bind.
  destruct (run backend (Api.chatAPI.sendMessage _ _ _)) as [reqs [r|e']];
    simpl in Hcall; [discriminate|].
  injection Hcall as ->. simpl.
  unfold on_error, setMessages, toaster_create, setIsLoading; simpl.
  by rewrite <- app_assoc.
Qed.

(** C6. A chat turn whose service call throws still ends in a textual
    answer: the handler returns normally, having appended to the message
    list (after the user's message) a message of sender [agent] with the
    fixed apology text, and the loading flag is false again. *)
Theorem sendMessage_degrades_on_failure :
  forall (clock : nat -> Z)
         (backend : Request -> Outcome (Response Api.ChatResponse))
         (st : State) (e : Error),
    Js.trim (inputValue st) <> "" ->
    isLoading st = false ->
    snd (run backend (Api.chatAPI.sendMessage (inputValue st)
                        (Some (memoryEnabled st)) (Some (activeThreadId st))))
    = Rejected e ->
    exists (st' : State) (userMessage errorMessage : Message),
      snd (run backend (sendMessage clock st)) = Resolved st'
      /\ messages st' = messages st ++ [userMessage; errorMessage]
      /\ sender userMessage = user
      /\ text userMessage = inputValue st
      /\ sender errorMessage = agent
      /\ text errorMessage =
         "Sorry, I encountered an error processing your request. Please try again."
      /\ isLoading st' = false.
Proof.
  intros clock backend st e Hinput Hloading Hcall.
  rewrite (sendMessage_run_rejected clock backend st e Hinput Hloading Hcall).
  eexists _, _, _. split; [reflexivity|]. simpl. by repeat split.
Qed.

(** A turn against a back end that is down. *)
Lemma sendMessage_degrades_on_failure_witness :
  let clock := fun k : nat => (1700000000000 + Z.of_nat k)%Z in
  let backend := fun _ : Request =>
    @Rejected (Response Api.ChatResponse) (mkError None) in
  let st := mkState [] "  What are the latest news? " false true None [] [] in
  Js.trim (inputValue st) <> ""
  /\ isLoading st = false
  /\ exists (st' : State) (userMessage errorMessage : Message),
      snd (run backend (sendMessage clock st)) = Resolved st'
      /\ messages st' = messages st ++ [userMessage; errorMessage]
      /\ sender userMessage = user
      /\ text userMessage = inputValue st
      /\ sender errorMessage = agent
      /\ text errorMessage =
         "Sorry, I encountered an error processing your request. Please try again."
      /\ isLoading st' = false.
Proof.
  intros clock backend st.
  assert (Hinput : Js.trim (inputValue st) <> "") by (vm_compute; discriminate).
  split; [exact Hinput|]. split; [reflexivity|].
  apply (sendMessage_degrades_on_failure clock backend st (mkError None));
    [exact Hinput | reflexivity | reflexivity].
Defined.

(** Blank input never starts a turn. *)
Example sendMessage_blank :
  run (fun _ => @Rejected (Response Api.ChatResponse) (mkError None))
      (sendMessage (fun _ => 0%Z) (mkState [] "   " false false None [] []))
  = ([], Resolved (mkState [] "   " false false None [] [])).
Proof. reflexivity. Qed.

Example trim_both_ends : Js.trim "  What is new?  " = "What is new?".
Proof. reflexivity. Qed.

End ChatInterfaceProperties.

(* ===================================================================== *)
(** * Properties of the memory-graph view (components/MemoryGraphView.tsx) *)
(* ===================================================================== *)

Section MemoryGraphViewProperties.
Import Api MemoryGraphView.

Lemma has_visible st x : has (visibleNodeIds st) x = true <-> x ∈ id <$> filteredNodes st.
Proof.
  unfold has, visibleNodeIds. rewrite bool_decide_eq_true, elem_of_list_to_set.
  done.
Qed.

(** Membership in [filteredRelationships] when a graph is loaded. *)
Lemma elem_of_filteredRelationships st g rel :
  graphData st = Some g ->
  rel ∈ filteredRelationships st <->
  rel ∈ relationships g /\ from rel ∈ id <$> filteredNodes st
                        /\ to rel ∈ id <$> filteredNodes st.
Proof.
  intros Hg. unfold filteredRelationships. rewrite Hg.
  rewrite !list_elem_of_In, filter_In, andb_true_iff, !has_visible.
  rewrite !list_elem_of_In. tauto.
Qed.

Lemma nvlNodes_ids cap st : nvl_id <$> nvlNodes cap st = id <$> filteredNodes st.
Proof.
  unfold nvlNodes. change (@List.map) with (@fmap list _).
  rewrite <- list_fmap_compose. done.
Qed.

(** C8. With a graph loaded, whatever the three filters are set to: the
    relationships handed to the visualization are exactly the
    relationships of the graph whose from-node id and to-node id both
    belong to the filtered nodes (in the order of the graph), and every
    rendered relationship has both endpoints among the rendered nodes. *)
Theorem filtered_relationships_closed :
  forall (getNodeCaption : GraphNode -> string)
         (g : MemoryGraph) (filters : MemoryTypeFilters)
         (loading : bool) (err : option string)
         (selNode : option GraphNode) (selRel : option GraphRelationship),
    let st := mkState loading (Some g) err selNode selRel filters in
    let shown := id <$> filteredNodes st in
    filteredNodes st =
      List.filter (fun node => filter_of filters (getNodeMemoryType node)) (nodes g)
    /\ filteredRelationships st =
       List.filter (fun rel => bool_decide (from rel ∈ shown)
                               && bool_decide (to rel ∈ shown))
                   (relationships g)
    /\ nvlRelationships st = render_relationship st <$> filteredRelationships st
    /\ (forall rel, rel ∈ filteredRelationships st <->
                    rel ∈ relationships g /\ from rel ∈ shown /\ to rel ∈ shown)
    /\ Forall (fun r => nvl_from r ∈ nvl_id <$> nvlNodes getNodeCaption st
                        /\ nvl_to r ∈ nvl_id <$> nvlNodes getNodeCaption st)
              (nvlRelationships st).
Proof.
  intros cap g filters loading err selNode selRel st shown.
  split; [done|]. split; [|split; [done|split]].
  - unfold filteredRelationships; simpl. apply filter_ext. intros rel.
    unfold has, visibleNodeIds, shown.
    f_equal; apply bool_decide_ext; by rewrite elem_of_list_to_set.
  - intros rel. by apply elem_of_filteredRelationships.
  - rewrite nvlNodes_ids. unfold nvlRelationships.
    apply Forall_forall. intros r Hr.
    apply list_elem_of_In, in_map_iff in Hr as (rel & <- & Hrel).
    apply list_elem_of_In, (elem_of_filteredRelationships st g) in Hrel; [|done].
    simpl. tauto.
Qed.






(** A thread, its message and the tool of a call: with the procedural
    filter off, the tool and the edge that reaches it are not shown. *)
Example hide_procedural :
  let g := mkMemoryGraph
             [mkGraphNode "t1" ["Thread"] []; mkGraphNode "m1" ["Message"] [];
              mkGraphNode "search_news" ["Tool"] []]
             [mkGraphRelationship "r1" "t1" "m1" "FIRST_MESSAGE" [];
              mkGraphRelationship "r2" "m1" "search_news" "INSTANCE_OF" []] in
  let st := mkState false (Some g) None None None (mkFilters true true false) in
  id <$> filteredNodes st = ["t1"; "m1"]
  /\ rel_id <$> filteredRelationships st = ["r1"].
Proof. by vm_compute. Qed.

End MemoryGraphViewProperties.

(* ===================================================================== *)
(** * Properties of the memory repository *)
(* ===================================================================== *)

Section EpisodicProperties.
Import MemoryRepository.

Lemma fresh_id_inj : Inj (=) (=) fresh_id.
Proof.
  intros a b H. unfold fresh_id in H.
  apply String.app_inj in H. by apply (inj pretty) in H.
Qed.

Lemma fresh_not_issued n : ~ issued n (fresh_id n).
Proof. intros (k & Hk & Heq). apply fresh_id_inj in Heq. lia. Qed.

Lemma issued_mono n n' id : n <= n' -> issued n id -> issued n' id.
Proof. intros Hle (k & Hk & ->). exists k. split; [lia|done]. Qed.

(** Walking a linked list with enough fuel returns it. *)
Lemma walk_linked next l a fuel :
  linked next (a :: l) -> length (a :: l) <= fuel ->
  walk_from next fuel a = a :: l.
Proof.
  revert a fuel. induction l as [|b l IH]; intros a fuel Hl Hfuel;
    (destruct fuel as [|fuel]; [simpl in Hfuel; lia|]).
  - simpl in *. by rewrite Hl.
  - destruct Hl as [Hab Hl]. simpl. rewrite Hab. f_equal.
    apply IH; [done|]. simpl in *. lia.
Qed.

Lemma linked_frame next next' l :
  (forall a, a ∈ l -> next' !! a = next !! a) -> linked next l -> linked next' l.
Proof.
  induction l as [|a [|b l] IH]; intros Heq Hl; [done| |].
  - simpl in *. rewrite Heq; [done|]. by left.
  - destruct Hl as [Hab Hl]. split.
    + rewrite Heq; [done|]. by left.
    + apply IH; [|done]. intros c Hc. apply Heq. by right.
Qed.

Lemma linked_snoc next l tail mid :
  NoDup (l ++ [mid]) -> last l = Some tail -> next !! mid = None ->
  linked next l -> linked (<[tail := mid]> next) (l ++ [mid]).
Proof.
  induction l as [|a [|b l] IH]; intros Hnd Htail Hmid Hl; [done| |].
  - simpl in Htail. injection Htail as ->. simpl.
    rewrite lookup_insert_eq. split; [done|].
    rewrite lookup_insert_ne; [done|].
    apply NoDup_cons in Hnd as [Hnd _]. set_solver.
  - destruct Hl as [Hab Hl].
    change ((a :: b :: l) ++ [mid]) with (a :: (b :: l) ++ [mid]) in *.
    apply NoDup_cons in Hnd as [Ha Hnd].
    split.
    + rewrite lookup_insert_ne; [done|].
      intros ->. apply Ha. apply elem_of_app. left.
      change (last (a :: b :: l)) with (last (b :: l)) in Htail.
      by apply last_Some_elem_of.
    + apply IH; try done.
Qed.

Lemma length_le_size {A} (m : gmap string A) (l : list string) :
  NoDup l -> (forall x, x ∈ l -> is_Some (m !! x)) -> length l <= size m.
Proof.
  intros Hnd Hin.
  rewrite <- (size_dom (D:=gset string)), <- (size_list_to_set (C:=gset string) l Hnd).
  apply subseteq_size. intros x Hx.
  apply elem_of_list_to_set in Hx. apply elem_of_dom. by apply Hin.
Qed.

(** Under the invariant the walk returns the Messages created for the
    thread. *)
Lemma chain_created st h tid :
  consistent st h -> is_Some (threads (episodic st) !! tid) ->
  chain (episodic st) tid = created_for tid h.
Proof.
  intros Hc Htid. destruct (inv_chain _ _ Hc tid Htid) as [Hfirst Hlinked].
  unfold chain. rewrite Hfirst.
  destruct (created_for tid h) as [|a l] eqn:Hl; [done|]. simpl.
  apply walk_linked; [done|]. rewrite <- Hl.
  apply length_le_size; [apply (inv_nodup _ _ Hc)|].
  intros x Hx. destruct (inv_member _ _ Hc tid x Htid Hx) as (m & -> & _). eauto.
Qed.


Lemma created_for_snoc tid h entry :
  created_for tid (h ++ [entry]) = created_for tid h ++ created_for tid [entry].
Proof. unfold created_for. by rewrite omap_app. Qed.

Lemma created_for_snoc_other tid h op r :
  (forall m, r <> MessageAppended m) ->
  created_for tid (h ++ [(op, r)]) = created_for tid h.
Proof.
  intros Hr. rewrite created_for_snoc.
  unfold created_for. simpl.
  destruct op, r; try (by rewrite app_nil_r). by destruct (Hr m).
Qed.

Lemma created_for_snoc_message tid tid' sender text rs ctx now m h :
  created_for tid (h ++ [(AppendMessage tid' sender text rs ctx now, MessageAppended m)])
  = created_for tid h ++ (if bool_decide (tid' = tid) then [msg_id m] else []).
Proof.
  rewrite created_for_snoc. unfold created_for at 2. simpl.
  by case_bool_decide.
Qed.

(** An operation that leaves the episodic memory alone and appends no
    Message keeps the invariant. *)
Lemma consistent_frame st h st' op r :
  consistent st h ->
  episodic st' = episodic st -> next_id st <= next_id st' ->
  (forall m, r <> MessageAppended m) ->
  consistent st' (h ++ [(op, r)]).
Proof.
  intros [] He Hn Hr.
  split; intros *; rewrite ?He, ?(created_for_snoc_other _ _ _ _ Hr); eauto.
  - intros Hmid. destruct (inv_created_issued0 _ _ Hmid).
    split; eapply issued_mono; eauto.
  - intros Htid. eapply issued_mono; eauto.
Qed.

Lemma create_thread_consistent st h title now :
  consistent st h ->
  consistent (create_thread title now st).1
             (h ++ [(CreateThread title now, ThreadCreated (create_thread title now st).2)]).
Proof.
  intros Hc. pose proof Hc as [].
  assert (Hnew : threads (episodic st) !! fresh_id (next_id st) = None).
  { apply eq_None_not_Some. intros H%inv_threads_issued0.
    by apply fresh_not_issued in H. }
  assert (Hempty : created_for (fresh_id (next_id st)) h = []).
  { destruct (created_for _ h) as [|x l] eqn:Hl; [done|].
    destruct (inv_created_issued0 (fresh_id (next_id st)) x) as [_ H].
    - rewrite Hl. by left.
    - by apply fresh_not_issued in H. }
  split; intros *; rewrite ?created_for_snoc_other by done; simpl.
  - intros Htid. destruct (decide (tid = fresh_id (next_id st))) as [->|Hne].
    + rewrite Hempty. split; [|done]. simpl.
      apply eq_None_not_Some. intros H%inv_first0. by rewrite Hnew in H; destruct H.
    + rewrite lookup_insert_ne in Htid by done. by apply inv_chain0.
  - intros Htid Hmid. destruct (decide (tid = fresh_id (next_id st))) as [->|Hne].
    + rewrite Hempty in Hmid. by apply elem_of_nil in Hmid.
    + rewrite lookup_insert_ne in Htid by done. eauto.
  - eauto.
  - eauto.
  - eauto.
  - intros Hmid. destruct (inv_created_issued0 _ _ Hmid).
    split; (eapply issued_mono; [|eassumption]; lia).
  - intros Htid. destruct (decide (tid = fresh_id (next_id st))) as [->|Hne].
    + exists (next_id st). split; [lia|done].
    + rewrite lookup_insert_ne in Htid by done.
      eapply issued_mono; [|eauto]. lia.
  - intros Hf. apply inv_first0 in Hf.
    destruct (decide (tid = fresh_id (next_id st))) as [->|Hne].
    + by rewrite lookup_insert_eq.
    + by rewrite lookup_insert_ne.
  - eauto.
Qed.


(** Appending a Message: what the new pointers have to satisfy. *)
Lemma append_message_consistent_aux st h tid th th' sender text rs ctx now first' next' :
  consistent st h ->
  threads (episodic st) !! tid = Some th ->
  let mid := fresh_id (next_id st) in
  let msg := mkMessage mid tid text sender now rs ctx in
  first' !! tid = head (created_for tid h ++ [mid]) ->
  (forall t, t <> tid -> first' !! t = first_message (episodic st) !! t) ->
  linked next' (created_for tid h ++ [mid]) ->
  (forall t a, t <> tid -> a ∈ created_for t h ->
               next' !! a = next_message (episodic st) !! a) ->
  (forall a b, next' !! a = Some b -> is_Some (messages (episodic st) !! a)) ->
  consistent
    (mkStore (mkEpisodic (<[tid := th']> (threads (episodic st)))
                         (<[mid := msg]> (messages (episodic st))) first' next')
             (procedural st) (declarative st) (S (next_id st)))
    (h ++ [(AppendMessage tid sender text rs ctx now, MessageAppended msg)]).
Proof.
  intros Hc Hth mid msg Hfirst Hfirst_other Hlinked Hnext_other Hnext_dom.
  pose proof Hc as [].
  assert (Hfresh : forall t, mid ∉ created_for t h).
  { intros t Hin. destruct (inv_created_issued0 _ _ Hin) as [H _].
    by apply fresh_not_issued in H. }
  assert (Hmsgs : messages (episodic st) !! mid = None).
  { destruct (messages (episodic st) !! mid) as [m|] eqn:Hm; [|done].
    apply inv_thread_of0 in Hm. by apply Hfresh in Hm. }
  assert (Hthreads : forall t, is_Some (<[tid := th']> (threads (episodic st)) !! t)
                               <-> is_Some (threads (episodic st) !! t)).
  { intros t. destruct (decide (tid = t)) as [<-|Hne].
    - rewrite lookup_insert_eq, Hth. split; eauto.
    - by rewrite lookup_insert_ne. }
  split; intros *; rewrite ?created_for_snoc_message; simpl; rewrite ?Hthreads.
  - intros Ht. case_bool_decide as Heq.
    + subst tid0. split; [done|]. exact Hlinked.
    + rewrite app_nil_r. destruct (inv_chain0 _ Ht) as [H1 H2].
      split; simpl.
      * rewrite Hfirst_other; [done|congruence].
      * eapply linked_frame; [|exact H2].
        intros a Ha. apply (Hnext_other tid0); [congruence|done].
  - intros Ht Hin. apply elem_of_app in Hin as [Hin|Hin].
    + destruct (inv_member0 _ _ Ht Hin) as (m & Hm & Hid).
      exists m. split; [|done]. rewrite lookup_insert_ne; [done|].
      intros <-. by apply Hfresh in Hin.
    + case_bool_decide; [|by apply elem_of_nil in Hin].
      apply list_elem_of_singleton in Hin as ->.
      exists msg. by rewrite lookup_insert_eq.
  - intros Hm. destruct (decide (mid = mid0)) as [<-|Hne].
    + rewrite lookup_insert_eq in Hm. injection Hm as <-. simpl.
      rewrite bool_decide_eq_true_2 by done.
      apply elem_of_app. right. by left.
    + rewrite lookup_insert_ne in Hm by done.
      apply elem_of_app. left. eauto.
  - intros H1 H2.
    apply elem_of_app in H1 as [H1|H1]; apply elem_of_app in H2 as [H2|H2].
    + eauto.
    + case_bool_decide; [|by apply elem_of_nil in H2].
      apply list_elem_of_singleton in H2 as ->. by apply Hfresh in H1.
    + case_bool_decide; [|by apply elem_of_nil in H1].
      apply list_elem_of_singleton in H1 as ->. by apply Hfresh in H2.
    + repeat case_bool_decide; try (by apply elem_of_nil in H1);
        try (by apply elem_of_nil in H2). congruence.
  - case_bool_decide.
    + apply NoDup_app. split; [done|]. split; [|apply NoDup_singleton].
      intros x Hx Hx'. apply list_elem_of_singleton in Hx' as ->.
      by apply Hfresh in Hx.
    + by rewrite app_nil_r.
  - intros Hin. apply elem_of_app in Hin as [Hin|Hin].
    + destruct (inv_created_issued0 _ _ Hin).
      split; (eapply issued_mono; [|eassumption]; lia).
    + case_bool_decide; [|by apply elem_of_nil in Hin]. subst tid0.
      apply list_elem_of_singleton in Hin as ->. split.
      * exists (next_id st). split; [lia|done].
      * eapply issued_mono; [|apply inv_threads_issued0; eauto]. lia.
  - intros Ht. eapply issued_mono; [|eauto]. lia.
  - intros Hf. destruct (decide (tid0 = tid)) as [->|Hne]; [eauto|].
    rewrite Hfirst_other in Hf by done. eauto.
  - intros Hn. apply Hnext_dom in Hn.
    destruct (decide (mid = a)) as [<-|Hne].
    + by rewrite lookup_insert_eq.
    + by rewrite lookup_insert_ne.
Qed.


Lemma append_message_consistent st h tid sender text rs ctx now :
  consistent st h ->
  consistent (append_message tid sender text rs ctx now st).1
    (h ++ [(AppendMessage tid sender text rs ctx now,
            reply_of_message (append_message tid sender text rs ctx now st).2)]).
Proof.
  intros Hc. unfold append_message.
  destruct (threads (episodic st) !! tid) as [th|] eqn:Hth; simpl.
  - rewrite (chain_created st h tid Hc) by eauto.
    pose proof Hc as [].
    assert (Hfresh : forall t, fresh_id (next_id st) ∉ created_for t h).
    { intros t Hin. destruct (inv_created_issued0 _ _ Hin) as [H _].
      by apply fresh_not_issued in H. }
    assert (Hnext : next_message (episodic st) !! fresh_id (next_id st) = None).
    { destruct (next_message (episodic st) !! _) as [b|] eqn:Hb; [|done].
      apply inv_next0 in Hb as [m Hm]. apply inv_thread_of0 in Hm.
      by apply Hfresh in Hm. }
    destruct (inv_chain0 tid) as [Hhead Hlinked]; [eauto|].
    destruct (last (created_for tid h)) as [tail|] eqn:Hlast; simpl.
    + apply (append_message_consistent_aux st h tid th); try done.
      * rewrite Hhead. destruct (created_for tid h); [done|done].
      * apply linked_snoc; try done.
        apply NoDup_app. split; [done|]. split; [|apply NoDup_singleton].
        intros x Hx Hx'. apply list_elem_of_singleton in Hx' as ->.
        by apply Hfresh in Hx.
      * intros t a Ht Ha. rewrite lookup_insert_ne; [done|].
        intros <-. apply Ht. symmetry. apply (inv_owner0 tid t tail); [|done].
        by apply last_Some_elem_of.
      * intros a b Hab. destruct (decide (tail = a)) as [<-|Hne].
        -- destruct (inv_member0 tid tail) as (m & -> & _); eauto.
           by apply last_Some_elem_of.
        -- rewrite lookup_insert_ne in Hab by done. eauto.
    + apply last_None in Hlast.
      apply (append_message_consistent_aux st h tid th); try done.
      * by rewrite lookup_insert_eq, Hlast.
      * intros t Ht. by rewrite lookup_insert_ne.
      * by rewrite Hlast.
  - apply (consistent_frame st); done.
Qed.

(** The supply only moves forward while reasoning steps are recorded. *)
Lemma next_id_fold_tool_calls describe sid now tcs p n :
  n <= (foldl (add_tool_call describe sid now) (p, n) tcs).2.
Proof.
  revert p n. induction tcs as [|tc tcs IH]; intros p n; simpl; [done|].
  etrans; [|apply IH]. lia.
Qed.

Lemma next_id_fold_steps describe mid tid now ss p n prev i :
  n <= (foldl (add_step describe mid tid now) (p, n, prev, i) ss).1.1.2.
Proof.
  revert p n prev i. induction ss as [|s ss IH]; intros p n prev i; simpl; [done|].
  destruct (foldl (add_tool_call describe _ now) _ (in_tool_calls s)) as [p2 n2] eqn:Hf.
  etrans; [|apply IH].
  pose proof (next_id_fold_tool_calls describe (fresh_id n) now (in_tool_calls s)
    (mkProcedural (<[fresh_id n := mkReasoningStep (fresh_id n) i (in_reasoning_text s) mid tid]> (steps p))
       (tool_calls p) (tools p)
       match prev with Some prev_id => <[prev_id := fresh_id n]> (next_step p) | None => next_step p end
       (uses_tool p) (instance_of p)) (S n)) as H.
  rewrite Hf in H. simpl in H. lia.
Qed.

Lemma append_reasoning_steps_consistent describe st h mid ss now :
  consistent st h ->
  consistent (append_reasoning_steps describe mid ss now st).1
    (h ++ [(AppendReasoningSteps mid ss now,
            reply_of_steps (append_reasoning_steps describe mid ss now st).2)]).
Proof.
  intros Hc. unfold append_reasoning_steps.
  destruct (messages (episodic st) !! mid) as [msg|]; simpl.
  - pose proof (next_id_fold_steps describe mid (msg_thread_id msg) now ss
                  (procedural st) (next_id st) None 1) as Hn.
    destruct (foldl _ _ ss) as [[[p n] prev] i]. simpl in *.
    apply (consistent_frame st); done.
  - apply (consistent_frame st); done.
Qed.

Lemma linked_filter (dead : gset string) next l :
  (forall a, a ∈ l -> a ∉ dead) -> linked next l ->
  linked (filter (fun kv : string * string => (fst kv ∉ dead) /\ (snd kv ∉ dead)) next) l.
Proof.
  induction l as [|a [|b l] IH]; intros Halive Hl; [done| |].
  - simpl in *. apply map_lookup_filter_None. by left.
  - destruct Hl as [Hab Hl]. split.
    + apply map_lookup_filter_Some. split; [done|]. simpl.
      split; apply Halive; [by left|by right; left].
    + apply IH; [|done]. intros c Hc. apply Halive. by right.
Qed.

Lemma delete_thread_consistent st h tid :
  consistent st h ->
  consistent (delete_thread tid st) (h ++ [(DeleteThread tid, ThreadDeleted)]).
Proof.
  intros Hc. pose proof Hc as [].
  assert (Hthread : forall t mid m,
            mid ∈ created_for t h -> messages (episodic st) !! mid = Some m ->
            msg_thread_id m = t).
  { intros t mid m Hin Hm. apply inv_thread_of0 in Hm. eauto. }
  assert (Halive : forall t mid,
            t <> tid -> is_Some (threads (episodic st) !! t) ->
            mid ∈ created_for t h -> mid ∉ dom (messages_of tid (episodic st))).
  { intros t mid Hne Ht Hin Hdead.
    apply elem_of_dom in Hdead as [m Hm].
    apply map_lookup_filter_Some in Hm as [Hm Heq]. simpl in Heq.
    apply Hne. rewrite <- Heq. symmetry. eauto. }
  split; intros *; rewrite ?created_for_snoc_other by done; simpl.
  - intros [th Ht]. apply lookup_delete_Some in Ht as [Hne Ht].
    destruct (inv_chain0 tid0) as [H1 H2]; [eauto|].
    split; simpl.
    + by rewrite lookup_delete_ne.
    + apply linked_filter; [|done]. intros a Ha. eapply Halive; eauto.
  - intros [th Ht] Hin. apply lookup_delete_Some in Ht as [Hne Ht].
    destruct (inv_member0 tid0 mid) as (m & Hm & Hid); eauto.
    exists m. split; [|done]. apply map_lookup_filter_Some. split; [done|].
    simpl. rewrite (Hthread tid0 mid m); eauto.
  - intros Hm. apply map_lookup_filter_Some in Hm as [Hm _]. eauto.
  - eauto.
  - eauto.
  - eauto.
  - intros [th Ht]. apply lookup_delete_Some in Ht as [Hne Ht]. eauto.
  - intros [m Hf]. apply lookup_delete_Some in Hf as [Hne Hf].
    destruct (inv_first0 tid0) as [th Hth]; [eauto|].
    exists th. by apply lookup_delete_Some.
  - intros Hab. apply map_lookup_filter_Some in Hab as [Hab [Ha _]]. simpl in Ha.
    destruct (inv_next0 _ _ Hab) as [m Hm].
    exists m. apply map_lookup_filter_Some. split; [done|]. simpl.
    intros Heq. apply Ha. apply elem_of_dom. exists m.
    by apply map_lookup_filter_Some.
Qed.

Section Histories.
Variable describe : string -> string.

Lemma run_snoc ops op :
  run describe (ops ++ [op]) = exec_logged describe (run describe ops) op.
Proof. unfold run, run_from. by rewrite foldl_app. Qed.

Lemma empty_consistent : consistent empty [].
Proof.
  split; simpl; intros *; try (by intros [? ?%lookup_empty_Some]);
    try (by intros ?%lookup_empty_Some); try (by intros ?%elem_of_nil).
  intros _. constructor.
Qed.

(** Every history keeps the invariant. *)
Lemma run_consistent ops : consistent (run describe ops).1 (run describe ops).2.
Proof.
  induction ops as [|op ops IH] using rev_ind; [apply empty_consistent|].
  rewrite run_snoc. destruct (run describe ops) as [st h]. simpl in IH.
  unfold exec_logged. simpl.
  destruct op as [title now|tid sender text rs ctx now|mid ss now|tid]; simpl.
  - by apply create_thread_consistent.
  - pose proof (append_message_consistent st h tid sender text rs ctx now IH) as H.
    by destruct (append_message _ _ _ _ _ _ _) as [st' r].
  - pose proof (append_reasoning_steps_consistent describe st h mid ss now IH) as H.
    by destruct (append_reasoning_steps _ _ _ _ _) as [st' r].
  - by apply delete_thread_consistent.
Qed.

End Histories.


Lemma next_id_tool_calls describe sid now tcs p n :
  (foldl (add_tool_call describe sid now) (p, n) tcs).2 = n + length tcs.
Proof.
  revert p n. induction tcs as [|tc tcs IH]; intros p n; simpl; [lia|].
  rewrite IH. lia.
Qed.

Lemma next_id_steps describe mid tid now ss p n prev i :
  (foldl (add_step describe mid tid now) (p, n, prev, i) ss).1.1.2 = n + ids_needed ss.
Proof.
  revert p n prev i. induction ss as [|s ss IH]; intros p n prev i; simpl.
  - unfold ids_needed. simpl. lia.
  - destruct (foldl (add_tool_call describe _ now) _ (in_tool_calls s)) as [p2 n2] eqn:Hf.
    rewrite IH.
    pose proof (next_id_tool_calls describe (fresh_id n) now (in_tool_calls s)
      (mkProcedural (<[fresh_id n := mkReasoningStep (fresh_id n) i (in_reasoning_text s) mid tid]> (steps p))
         (tool_calls p) (tools p)
         match prev with Some prev_id => <[prev_id := fresh_id n]> (next_step p) | None => next_step p end
         (uses_tool p) (instance_of p)) (S n)) as H.
    rewrite Hf in H. simpl in H. unfold ids_needed. csimpl. lia.
Qed.

Lemma same_shape_chain st st' tid :
  same_shape st st' -> chain (episodic st) tid = chain (episodic st') tid.
Proof.
  intros (_ & Hm & Hf & Hn & _). unfold chain. rewrite Hf, Hn.
  by rewrite <- (map_size_fmap msg_thread_id (messages (episodic st))), Hm,
             map_size_fmap.
Qed.

Lemma same_shape_thread st st' tid :
  same_shape st st' ->
  is_Some (threads (episodic st) !! tid) <-> is_Some (threads (episodic st') !! tid).
Proof. intros (Hd & _). by rewrite <- !elem_of_dom, Hd. Qed.

Lemma same_shape_message st st' mid :
  same_shape st st' ->
  msg_thread_id <$> messages (episodic st) !! mid
  = msg_thread_id <$> messages (episodic st') !! mid.
Proof. intros (_ & Hm & _). by rewrite <- !lookup_fmap, Hm. Qed.

Lemma fmap_messages_of tid (m : gmap string Message) :
  msg_thread_id <$> filter (fun kv : string * Message => msg_thread_id (snd kv) = tid) m
  = filter (fun kv : string * string => snd kv = tid) (msg_thread_id <$> m).
Proof. rewrite map_filter_fmap. f_equal. Qed.

Lemma fmap_messages_not_of tid (m : gmap string Message) :
  msg_thread_id <$> filter (fun kv : string * Message => msg_thread_id (snd kv) ≠ tid) m
  = filter (fun kv : string * string => snd kv ≠ tid) (msg_thread_id <$> m).
Proof. rewrite map_filter_fmap. f_equal. Qed.

Section Retiming.
Variable describe : string -> string.

Lemma exec_same_shape st st' op op' :
  erase_time op = erase_time op' -> same_shape st st' ->
  same_shape (exec describe st op).1 (exec describe st' op').1.
Proof.
  intros Hop Hs. pose proof Hs as (Hd & Hm & Hf & Hn & Hid).
  destruct op as [title now|tid sender text rs ctx now|mid ss now|tid];
    destruct op' as [title' now'|tid' sender' text' rs' ctx' now'|mid' ss' now'|tid'];
    try discriminate; unfold erase_time in Hop; simpl in Hop;
    injection Hop as <-; subst; simpl.
  - repeat split; simpl; try done; [|by rewrite Hid]. by rewrite !dom_insert_L, Hd, Hid.
  - unfold append_message.
    pose proof (same_shape_thread st st' tid Hs) as Ht.
    destruct (threads (episodic st) !! tid) as [th|] eqn:Hth;
      destruct (threads (episodic st') !! tid) as [th'|] eqn:Hth'; simpl.
    + rewrite <- (same_shape_chain st st' tid Hs), Hid, Hf, Hn.
      destruct (last (chain (episodic st) tid)); simpl.
      * repeat split; simpl; try done.
        -- rewrite !dom_insert_L. by rewrite Hd.
        -- by rewrite !fmap_insert, Hm.
      * repeat split; simpl; try done.
        -- rewrite !dom_insert_L. by rewrite Hd.
        -- by rewrite !fmap_insert, Hm.
    + destruct Ht as [Ht _]. by destruct Ht; eauto.
    + destruct Ht as [_ Ht]. by destruct Ht; eauto.
    + done.
  - unfold append_reasoning_steps.
    pose proof (same_shape_message st st' mid Hs) as Hmid.
    destruct (messages (episodic st) !! mid) as [msg|];
      destruct (messages (episodic st') !! mid) as [msg'|]; try done; simpl.
    pose proof (next_id_steps describe mid (msg_thread_id msg) now ss'
                  (procedural st) (next_id st) None 1) as H1.
    pose proof (next_id_steps describe mid (msg_thread_id msg') now' ss'
                  (procedural st') (next_id st') None 1) as H2.
    destruct (foldl _ _ ss') as [[[p n] prev] i].
    destruct (foldl _ _ ss') as [[[p' n'] prev'] i']. simpl in *.
    repeat split; try done. simpl. lia.
  - assert (Hdead : dom (messages_of tid (episodic st))
                    = dom (messages_of tid (episodic st'))).
    { unfold messages_of.
      rewrite <- (dom_fmap_L msg_thread_id (filter _ (messages (episodic st)))).
      rewrite <- (dom_fmap_L msg_thread_id (filter _ (messages (episodic st')))).
      by rewrite !fmap_messages_of, Hm. }
    repeat split; simpl.
    + by rewrite !dom_delete_L, Hd.
    + by rewrite !fmap_messages_not_of, Hm.
    + by rewrite Hf.
    + by rewrite Hn, Hdead.
    + done.
Qed.

Lemma run_from_same_shape ops ops' acc acc' :
  Forall2 (fun op op' => erase_time op = erase_time op') ops ops' ->
  same_shape acc.1 acc'.1 ->
  same_shape (foldl (exec_logged describe) acc ops).1
             (foldl (exec_logged describe) acc' ops').1.
Proof.
  intros Hops. revert acc acc'.
  induction Hops as [|op op' ops ops' Hop _ IH]; intros acc acc' Hs; [done|].
  simpl. apply IH. unfold exec_logged.
  pose proof (exec_same_shape acc.1 acc'.1 op op' Hop Hs) as H.
  by destruct (exec _ acc.1 op), (exec _ acc'.1 op').
Qed.

Lemma retime_related clock ops :
  Forall2 (fun op op' => erase_time op = erase_time op') ops (retime clock ops).
Proof.
  unfold retime. revert clock. induction ops as [|op ops IH]; intros clock.
  - constructor.
  - rewrite imap_cons. constructor; [by destruct op|]. apply IH.
Qed.

(** The walk of a thread does not depend on the times of the operations. *)
Lemma chain_retime clock ops tid :
  chain (episodic (run describe (retime clock ops)).1) tid
  = chain (episodic (run describe ops).1) tid.
Proof.
  symmetry. apply same_shape_chain. unfold run, run_from.
  apply run_from_same_shape; [apply retime_related|done].
Qed.

End Retiming.


Lemma ids_of_messages (m : gmap string Message) (l : list string) :
  (forall x, x ∈ l -> exists msg, m !! x = Some msg /\ msg_id msg = x) ->
  msg_id <$> omap (fun x => m !! x) l = l.
Proof.
  induction l as [|a l IH]; intros Hl; [done|]. csimpl.
  destruct (Hl a) as (msg & -> & Hid); [by left|]. csimpl.
  rewrite Hid, IH; [done|]. intros x Hx. apply Hl. by right.
Qed.

(** What [get_thread] returns under the invariant. *)
Lemma get_thread_consistent st h tid th :
  consistent st h -> threads (episodic st) !! tid = Some th ->
  exists msgs,
    get_thread tid st = Ok (th, msgs)
    /\ msg_id <$> msgs = created_for tid h
    /\ Forall (fun m => msg_thread_id m = tid) msgs.
Proof.
  intros Hc Hth. unfold get_thread. rewrite Hth.
  rewrite (chain_created st h tid Hc) by eauto.
  eexists. split; [reflexivity|]. split.
  - apply ids_of_messages. intros x Hx.
    apply (inv_member _ _ Hc tid); eauto.
  - apply Forall_forall. intros m Hm.
    apply list_elem_of_omap in Hm as (x & Hx & Hm).
    apply (inv_owner _ _ Hc _ _ x); [|done].
    by apply (inv_thread_of _ _ Hc).
Qed.

Section Walk.
Variable describe : string -> string.

Lemma thread_order_run ops tid :
  thread_order tid (run describe ops).1 =
  if bool_decide (is_Some (threads (episodic (run describe ops).1) !! tid))
  then Some (chain (episodic (run describe ops).1) tid)
  else None.
Proof.
  pose proof (run_consistent describe ops) as Hc.
  unfold thread_order.
  destruct (threads (episodic (run describe ops).1) !! tid) as [th|] eqn:Hth.
  - destruct (get_thread_consistent _ _ tid th Hc Hth) as (msgs & -> & Hids & _).
    rewrite bool_decide_eq_true_2 by eauto.
    by rewrite Hids, (chain_created _ _ tid Hc) by eauto.
  - unfold get_thread. rewrite Hth.
    rewrite bool_decide_eq_false_2; [done|]. by intros [? ?].
Qed.

Lemma thread_order_retime clock ops tid :
  thread_order tid (run describe (retime clock ops)).1
  = thread_order tid (run describe ops).1.
Proof.
  assert (Hs : same_shape (run describe ops).1 (run describe (retime clock ops)).1).
  { unfold run, run_from. apply run_from_same_shape; [apply retime_related|done]. }
  rewrite !thread_order_run, (chain_retime describe clock ops tid).
  apply (same_shape_thread _ _ tid) in Hs.
  repeat case_bool_decide; tauto.
Qed.

(** C1. After any history of the repository and for every thread that
    exists, walking [FIRST_MESSAGE] and then [NEXT_MESSAGE] (which is what
    [get_thread] does) returns exactly the Messages created for that
    thread, in creation order, each once (no cycle, no omission; the last
    one has no successor); and the order is the same whatever the times of
    the operations are, equal or decreasing ones included. *)
Theorem chain_walk_is_creation_order :
  forall (ops : list Op) (tid : string),
    let st := (run describe ops).1 in
    let h := (run describe ops).2 in
    match threads (episodic st) !! tid with
    | Some th =>
        exists msgs : list Message,
          get_thread tid st = Ok (th, msgs)
          /\ msg_id <$> msgs = created_for tid h
          /\ Forall (fun m => msg_thread_id m = tid) msgs
          /\ NoDup (msg_id <$> msgs)
          /\ chain_of (episodic st) tid (created_for tid h)
    | None => get_thread tid st = Err NotFound
    end
    /\ forall clock : nat -> Z,
         thread_order tid (run describe (retime clock ops)).1 = thread_order tid st.
Proof.
  intros ops tid st h.
  pose proof (run_consistent describe ops) as Hc. fold st h in Hc.
  split; [|intros clock; apply thread_order_retime].
  destruct (threads (episodic st) !! tid) as [th|] eqn:Hth.
  - destruct (get_thread_consistent st h tid th Hc Hth) as (msgs & Hget & Hids & Hthr).
    exists msgs. repeat split; try done.
    + rewrite Hids. apply (inv_nodup _ _ Hc).
    + apply (inv_chain _ _ Hc). eauto.
    + apply (inv_chain _ _ Hc). eauto.
  - unfold get_thread. by rewrite Hth.
Qed.

End Walk.

(** Three messages written at times 50, 50 and 10 come back in the order
    in which they were appended. *)
Example walk_with_equal_and_decreasing_times :
  let ops := [CreateThread None 100;
              AppendMessage "id-0" user "Tell me about AI" None None 50;
              AppendMessage "id-0" agent "Here is what I found" None None 50;
              AppendMessage "id-0" user "And robotics?" None None 10] in
  thread_order "id-0" (run (fun name => name) ops).1 = Some ["id-1"; "id-2"; "id-3"].
Proof. by vm_compute. Qed.

End EpisodicProperties.

Section CascadeProperties.
Import MemoryRepository.


End CascadeProperties.

Section ToolRegistry.
Import MemoryRepository.

Section ToolRegistryProperties.
Variable describe : string -> string.

Lemma tools_fold_tool_calls sid now tcs p n :
  tools (foldl (add_tool_call describe sid now) (p, n) tcs).1 =
  foldl (fun ts tc => upsert_tool describe (in_name tc) now ts) (tools p) tcs.
Proof.
  revert p n. induction tcs as [|tc tcs IH]; intros p n; [done|].
  simpl. by rewrite IH.
Qed.

Lemma tools_fold_steps mid tid now ss p n prev i :
  tools (foldl (add_step describe mid tid now) (p, n, prev, i) ss).1.1.1 =
  foldl (fun ts tc => upsert_tool describe (in_name tc) now ts) (tools p)
        (concat (in_tool_calls <$> ss)).
Proof.
  revert p n prev i. induction ss as [|s ss IH]; intros p n prev i; [done|].
  simpl. rewrite foldl_app.
  destruct (foldl (add_tool_call describe _ now) _ (in_tool_calls s)) as [p2 n2] eqn:Hfold.
  rewrite IH. f_equal.
  pose proof (tools_fold_tool_calls (fresh_id n) now (in_tool_calls s)
    (mkProcedural (<[fresh_id n := mkReasoningStep (fresh_id n) i (in_reasoning_text s) mid tid]> (steps p))
       (tool_calls p) (tools p)
       match prev with Some prev_id => <[prev_id := fresh_id n]> (next_step p) | None => next_step p end
       (uses_tool p) (instance_of p)) (S n)) as H.
  rewrite Hfold in H. exact H.
Qed.

Lemma filter_name_touch name now name' ts :
  List.filter (fun t => bool_decide (tool_name t = name'))
    ((fun t => if bool_decide (tool_name t = name) then touch_tool now t else t) <$> ts)
  = (fun t => if bool_decide (tool_name t = name) then touch_tool now t else t)
      <$> List.filter (fun t => bool_decide (tool_name t = name')) ts.
Proof.
  induction ts as [|t ts IH]; [done|]. csimpl.
  assert (Hn : tool_name (if bool_decide (tool_name t = name) then touch_tool now t else t)
               = tool_name t) by (by case_bool_decide).
  rewrite Hn, IH. by destruct (bool_decide (tool_name t = name')).
Qed.

Lemma has_tool_summaries name ts :
  has_tool name ts = false <-> summaries name ts = [].
Proof.
  unfold has_tool, summaries. rewrite bool_decide_eq_false.
  induction ts as [|t ts IH]; csimpl.
  - split; [done|]. intros _. apply not_elem_of_nil.
  - rewrite not_elem_of_cons. case_bool_decide; csimpl.
    + split; [|done]. intros [? _]. congruence.
    + rewrite <- IH. split; [tauto|]. intros ?. split; [congruence|done].
Qed.

(** The effect of one upsert on the nodes of each name. *)
Lemma summaries_upsert name now name' ts :
  summaries name' (upsert_tool describe name now ts) =
  if bool_decide (name = name')
  then match summaries name' ts with
       | [] => [(1, now, now)]
       | us => (fun u => (S u.1.1, u.1.2, now)) <$> us
       end
  else summaries name' ts.
Proof.
  unfold upsert_tool.
  destruct (has_tool name ts) eqn:Hhas.
  - unfold summaries. rewrite filter_name_touch, <- list_fmap_compose.
    case_bool_decide as Hn.
    + subst name'.
      assert (Hne : summaries name ts <> []).
      { intros H. apply has_tool_summaries in H. congruence. }
      unfold summaries in Hne.
      transitivity ((fun u : nat * Z * Z => (S u.1.1, u.1.2, now)) <$>
           (tool_summary <$> List.filter (fun t => bool_decide (tool_name t = name)) ts)).
      * rewrite <- list_fmap_compose. apply Forall_fmap_ext_1, Forall_forall.
        intros t Ht. apply list_elem_of_In, filter_In in Ht as [_ Ht].
        simpl. by rewrite Ht.
      * by destruct (tool_summary <$> _).
    + apply Forall_fmap_ext_1, Forall_forall.
      intros t Ht. apply list_elem_of_In, filter_In in Ht as [_ Ht].
      apply bool_decide_eq_true in Ht. simpl.
      case_bool_decide; [congruence|done].
  - unfold summaries. rewrite List.filter_app, fmap_app. csimpl.
    case_bool_decide as Hn.
    + subst name'. apply has_tool_summaries in Hhas. unfold summaries in Hhas.
      by rewrite Hhas.
    + by rewrite app_nil_r.
Qed.

(** The summary of the nodes named [name] after the references at [times]. *)
Lemma summary_of_times_snoc times now :
  summary_of_times (times ++ [now]) =
  match summary_of_times times with
  | [] => [(1, now, now)]
  | us => (fun u : nat * Z * Z => (S u.1.1, u.1.2, now)) <$> us
  end.
Proof.
  destruct times as [|t0 times]; [done|].
  unfold summary_of_times.
  change ((t0 :: times) ++ [now]) with (t0 :: (times ++ [now])). cbv iota.
  rewrite (app_comm_cons times [now] t0), last_snoc, length_app. csimpl.
  do 3 f_equal. lia.
Qed.

Lemma summaries_fold name' now tcs ts times :
  summaries name' ts = summary_of_times times ->
  summaries name'
    (foldl (fun ts tc => upsert_tool describe (in_name tc) now ts) ts tcs)
  = summary_of_times
      (times ++ reference_times name' ((fun tc => (in_name tc, now)) <$> tcs)).
Proof.
  revert ts times. induction tcs as [|tc tcs IH]; intros ts times Hts.
  - csimpl. by rewrite app_nil_r.
  - csimpl. unfold reference_times. csimpl.
    case_bool_decide as Hn.
    + csimpl. rewrite cons_middle, app_assoc.
      apply IH. rewrite summaries_upsert, summary_of_times_snoc.
      rewrite bool_decide_eq_true_2 by done. by rewrite Hts.
    + apply IH. rewrite summaries_upsert.
      by rewrite bool_decide_eq_false_2.
Qed.

Lemma reference_times_app name r1 r2 :
  reference_times name (r1 ++ r2) = reference_times name r1 ++ reference_times name r2.
Proof. unfold reference_times. by rewrite List.filter_app, fmap_app. Qed.

(** After any history, the Tool nodes named [name] are summarised by the
    times at which [name] was referenced. *)
Lemma tools_track_references ops name :
  summaries name (tools (procedural (run describe ops).1)) =
  summary_of_times (reference_times name (references (run describe ops).2)).
Proof.
  induction ops as [|op ops IH] using rev_ind; [done|].
  rewrite run_snoc. destruct (run describe ops) as [st h]. simpl in IH.
  unfold exec_logged. simpl.
  destruct op as [title now|tid sender text rs ctx now|mid ss now|tid]; simpl.
  - unfold references. rewrite fmap_app, concat_app, reference_times_app. csimpl.
    by rewrite app_nil_r.
  - unfold append_message.
    destruct (threads (episodic st) !! tid); [destruct (last _)|]; simpl;
      unfold references; rewrite fmap_app, concat_app, reference_times_app; csimpl;
      by rewrite app_nil_r.
  - unfold append_reasoning_steps.
    destruct (messages (episodic st) !! mid) as [msg|]; simpl.
    + destruct (foldl _ _ ss) as [[[p n] prev] i] eqn:Hfold. simpl.
      pose proof (tools_fold_steps mid (msg_thread_id msg) now ss
                    (procedural st) (next_id st) None 1) as Htools.
      rewrite Hfold in Htools. simpl in Htools. rewrite Htools.
      unfold references. rewrite fmap_app, concat_app, reference_times_app. csimpl.
      rewrite app_nil_r. by apply summaries_fold.
    + unfold references. rewrite fmap_app, concat_app, reference_times_app. csimpl.
      by rewrite app_nil_r.
  - unfold references. rewrite fmap_app, concat_app, reference_times_app. csimpl.
    by rewrite app_nil_r.
Qed.

(** C2. After any history, for every tool name, with N the number of
    ToolCalls that referenced it: no Tool node has the name if N = 0, and
    otherwise exactly one has, with usage_count = N (created at the first
    reference, last used at the last one). An upsert creates the Tool with
    usage_count = 1 if the name is new, and otherwise increments
    usage_count and sets last_used_at on the existing node, in place. *)
Theorem tool_upsert_counts_references :
  forall (ops : list Op) (name : string),
    let st := (run describe ops).1 in
    let h := (run describe ops).2 in
    let N := reference_count name h in
    usage_count <$> tools_named name st = match N with O => [] | S _ => [N] end
    /\ tool_summary <$> tools_named name st
       = summary_of_times (reference_times name (references h))
    /\ (forall (now : Z) (ts : list Tool),
          upsert_tool describe name now ts =
          if bool_decide (name ∈ tool_name <$> ts)
          then (fun t => if bool_decide (tool_name t = name)
                         then mkTool (tool_name t) (tool_description t)
                                     (tool_created_at t) now (S (usage_count t))
                         else t) <$> ts
          else ts ++ [mkTool name (describe name) now now 1]).
Proof.
  intros ops name st h N.
  pose proof (tools_track_references ops name) as Htrack.
  fold st h in Htrack. unfold summaries in Htrack. fold (tools_named name st) in Htrack.
  split; [|split; [done|done]].
  transitivity ((fun u : nat * Z * Z => u.1.1) <$> (tool_summary <$> tools_named name st)).
  { by rewrite <- list_fmap_compose. }
  rewrite Htrack. subst N. unfold reference_count.
  by destruct (reference_times name (references h)).
Qed.

End ToolRegistryProperties.

(** Three references over two turns, then the thread is deleted: one Tool
    node, used three times. *)
Example three_references_one_tool :
  let call := mkToolCallInput "search_news" "{}" "[]" in
  let ops := [CreateThread None 1;
              AppendMessage "id-0" agent "first" None None 2;
              AppendReasoningSteps "id-1" [mkStepInput None [call; call]] 3;
              AppendMessage "id-0" agent "second" None None 4;
              AppendReasoningSteps "id-5" [mkStepInput None [call]] 5;
              DeleteThread "id-0"] in
  tool_summary <$> tools_named "search_news" (run (fun name => name) ops).1
  = [(3, 3%Z, 5%Z)].
Proof. by vm_compute. Qed.

End ToolRegistry.

(* ===================================================================== *)
(** * Properties of the preference merge *)
(* ===================================================================== *)

Section PreferenceProperties.
Import MemoryRepository PreferenceEngine.

Section MergeProperties.
Variable similar : string -> string -> bool.








End MergeProperties.


End PreferenceProperties.

(* ===================================================================== *)
(** * Properties of the tool execution of the orchestrator *)
(* ===================================================================== *)

Section RetryProperties.
Import Http Orchestrator.
Context {W : Type}.
Variable call : string -> Args -> W -> ToolResult * W.
Variable escalation_param : string -> string.
Variable escalation_factor : Z.







End RetryProperties.


(* ===================================================================== *)
(** * Further properties of the chat interface *)
(* ===================================================================== *)

Section TrimProperties.

Lemma trim_start_blank s :
  ChatView.blank s = true -> Js.trim_start s = "".
Proof.
  unfold ChatView.blank. induction s as [|c s IH]; simpl; [done|].
  intros [Hc Hs]%andb_true_iff. rewrite Hc. by apply IH.
Qed.

Lemma trim_start_not_blank s :
  ChatView.blank s = false -> ChatView.blank (Js.trim_start s) = false
                              /\ Js.trim_start s <> "".
Proof.
  unfold ChatView.blank. induction s as [|c s IH]; simpl; [done|].
  destruct (Js.is_white_space c) eqn:Hc; simpl.
  - apply IH.
  - intros _. by rewrite Hc.
Qed.

Lemma blank_rev_app s acc :
  ChatView.blank (String.rev_app s acc) = ChatView.blank s && ChatView.blank acc.
Proof.
  unfold ChatView.blank. revert acc. induction s as [|c s IH]; intros acc; simpl; [done|].
  rewrite IH. simpl. by destruct (Js.is_white_space c), (forallb _ (list_ascii_of_string s)).
Qed.

Lemma rev_app_nonempty s acc : acc <> "" -> String.rev_app s acc <> "".
Proof.
  revert acc. induction s as [|c s IH]; intros acc Hacc; simpl; [done|].
  by apply IH.
Qed.

Lemma rev_nonempty s : s <> "" -> String.rev s <> "".
Proof.
  destruct s as [|c s]; [done|]. intros _. unfold String.rev. simpl.
  by apply rev_app_nonempty.
Qed.

(** [trim] leaves nothing exactly of the inputs that are white space
    only. *)
Lemma trim_empty_iff s : Js.trim s = "" <-> ChatView.blank s = true.
Proof.
  split.
  - intros Htrim. destruct (ChatView.blank s) eqn:Hb; [done|]. exfalso.
    destruct (trim_start_not_blank s Hb) as [Hb' _].
    unfold Js.trim, Js.trim_end in Htrim.
    assert (Hr : ChatView.blank (String.rev (Js.trim_start s)) = false).
    { unfold String.rev. by rewrite blank_rev_app, Hb'. }
    destruct (trim_start_not_blank _ Hr) as [_ Hne].
    by apply rev_nonempty in Hne.
  - intros Hb. unfold Js.trim. by rewrite (trim_start_blank s Hb).
Qed.

End TrimProperties.

Section ChatTurnProperties.
Import Http ChatInterface.

(** The state in which the request of a turn is awaited. *)
Lemma sendMessage_run_open clock backend st :
  Js.trim (inputValue st) <> "" ->
  isLoading st = false ->
  let req := mkRequest POST "/chat"
               (Some (Api.chat_body (inputValue st) (memoryEnabled st)
                                    (activeThreadId st))) in
  let waiting :=
    mkState (messages st ++
               [mkMessage (Js.toString (clock 0)) (inputValue st) user (clock 1)
                          None None])
            "" true (memoryEnabled st) (activeThreadId st) (toasts st) (started st) in
  run backend (sendMessage clock st) =
  ([req],
   Resolved (setIsLoading false
               match backend req with
               | Resolved r => on_response clock waiting (data r)
               | Rejected e => on_error clock waiting e
               end)).
Proof.
  intros Hinput Hloading req waiting.
  unfold sendMessage. rewrite (truthy_nonempty _ Hinput), Hloading.
  cbn -[Api.chatAPI.sendMessage run on_response on_error].
  unfold try_catch_finally, mbind, async_bind, mret, async_ret.
  rewrite run_bind, run_try_catch, run_bind, sendMessage_run.
  cbn -[on_response on_error]. fold req.
  destruct (backend req) as [r|e]; reflexivity.
Qed.

(** [sendMessage] when the guard stops the turn. *)
Lemma sendMessage_run_closed clock
    (backend : Request -> Outcome (Response Api.ChatResponse)) st :
  Js.trim (inputValue st) = "" \/ isLoading st = true ->
  run backend (sendMessage clock st) = ([], Resolved st).
Proof.
  intros [Hb|Hl]; unfold sendMessage.
  - by rewrite Hb.
  - rewrite Hl. by rewrite orb_true_r.
Qed.


(** X1. Nothing is sent for an input of white space only, nor while a turn
    is in flight: the handler issues no request and leaves the state as
    it is. *)
Theorem sendMessage_blocked :
  forall (clock : nat -> Z)
         (backend : Request -> Outcome (Response Api.ChatResponse)) (st : State),
    ChatView.blank (inputValue st) = true \/ isLoading st = true ->
    run backend (sendMessage clock st) = ([], Resolved st).
Proof.
  intros clock backend st [Hb|Hl]; apply sendMessage_run_closed.
  - left. by apply trim_empty_iff.
  - by right.
Qed.

Lemma sendMessage_blocked_witness :
  let st := mkState [] (String "009"%char " ") false false None [] [] in
  (ChatView.blank (inputValue st) = true \/ isLoading st = true)
  /\ run (fun _ => @Rejected (Response Api.ChatResponse) (mkError None))
         (sendMessage (fun _ => 0%Z) st) = ([], Resolved st).
Proof.
  intros st.
  assert (H : ChatView.blank (inputValue st) = true \/ isLoading st = true)
    by (left; reflexivity).
  split; [exact H|]. exact (sendMessage_blocked _ _ st H).
Defined.



End ChatTurnProperties.

Section ChatReplyProperties.
Import Http ChatInterface.



(** X4. If the clock does not run backwards during a turn, the two
    messages that the turn appends have different ids. *)
Theorem sendMessage_fresh_ids :
  forall (clock : nat -> Z)
         (backend : Request -> Outcome (Response Api.ChatResponse)) (st : State),
    ChatView.blank (inputValue st) = false ->
    isLoading st = false ->
    (clock 0%nat <= clock 2%nat)%Z ->
    exists (st' : State) (userMessage reply : Message),
      snd (run backend (sendMessage clock st)) = Resolved st'
      /\ messages st' = messages st ++ [userMessage; reply]
      /\ id userMessage <> id reply.
Proof.
  intros clock backend st Hb Hl Hclock.
  assert (Hinput : Js.trim (inputValue st) <> "").
  { intros H%trim_empty_iff. congruence. }
  assert (Hid : Js.toString (clock 0%nat) <> Js.toString (clock 2%nat + 1)).
  { unfold Js.toString. intros H%(inj pretty). lia. }
  rewrite (sendMessage_run_open clock backend st Hinput Hl).
  destruct (backend _) as [r|e]; eexists _, _, _;
    (split; [reflexivity|]); simpl.
  - destruct (truthy_opt (Api.thread_id (data r)) && _); simpl;
      rewrite <- app_assoc; by split.
  - rewrite <- app_assoc. by split.
Qed.

Lemma sendMessage_fresh_ids_witness :
  let st := mkState [] "hello" false false None [] [] in
  let clock := fun _ : nat => 1700000000000%Z in
  let backend := fun _ : Request =>
    @Rejected (Response Api.ChatResponse) (mkError None) in
  (ChatView.blank (inputValue st) = false /\ isLoading st = false
   /\ (clock 0%nat <= clock 2%nat)%Z)
  /\ exists (st' : State) (userMessage reply : Message),
      snd (run backend (sendMessage clock st)) = Resolved st'
      /\ messages st' = messages st ++ [userMessage; reply]
      /\ id userMessage <> id reply.
Proof.
  intros st clock backend.
  assert (H1 : ChatView.blank (inputValue st) = false) by reflexivity.
  assert (H2 : isLoading st = false) by reflexivity.
  assert (H3 : (clock 0%nat <= clock 2%nat)%Z) by (unfold clock; lia).
  split; [by repeat split|].
  exact (sendMessage_fresh_ids clock backend st H1 H2 H3).
Defined.






End ChatReplyProperties.

(* ===================================================================== *)
(** * Properties of the other handlers of the chat interface and of the
      sidebar *)
(* ===================================================================== *)

Section HandlerProperties.
Import Http ApiRest ChatView.

Lemma checkConnection_run D (backend : Request -> Outcome (Response D)) v :
  run backend (checkConnection v) =
  ([mkRequest GET "/health" None],
   Resolved
     (if match backend (mkRequest GET "/health" None) with
         | Resolved r => (status r =? 200)%Z
         | Rejected _ => false
         end
      then setIsConnected true v
      else toast "Backend Disconnected" "Unable to connect to the backend server"
                 "error" 5000 (setIsConnected false v))).
Proof.
  unfold checkConnection, mbind, async_bind, mret, async_ret.
  rewrite run_try_catch, run_bind, healthCheck_run. simpl.
  by destruct (match backend _ with Resolved r => _ | Rejected _ => _ end).
Qed.

(** X6. [checkConnection] sends one [GET /health] and never ends in its
    [catch] branch: the badge says connected exactly when the request
    completed with status 200, and otherwise exactly one toast, "Backend
    Disconnected", is raised; "Connection Error" is never shown. The
    rest of the view is untouched. *)
Theorem checkConnection_reports_health :
  forall (D : Type) (backend : Request -> Outcome (Response D)) (v : View),
    let req := mkRequest GET "/health" None in
    exists v' : View,
      run backend (checkConnection v) = ([req], Resolved v')
      /\ (isConnected v' = true <->
          exists r, backend req = Resolved r /\ status r = 200%Z)
      /\ ChatInterface.toasts (chat v') =
         ChatInterface.toasts (chat v) ++
         (if isConnected v' then []
          else [ChatInterface.mkToast "Backend Disconnected"
                  "Unable to connect to the backend server" "error" 5000])
      /\ Forall (fun t => ChatInterface.title t <> "Connection Error")
                (drop (length (ChatInterface.toasts (chat v)))
                      (ChatInterface.toasts (chat v')))
      /\ ChatInterface.messages (chat v') = ChatInterface.messages (chat v)
      /\ threads v' = threads v.
Proof.
  intros D backend v req. rewrite checkConnection_run. fold req.
  eexists. split; [reflexivity|].
  destruct (backend req) as [r|e] eqn:Hb; simpl.
  - destruct (status r =? 200)%Z eqn:Hs; simpl.
    + rewrite app_nil_r, drop_all. repeat split; try done.
      exists r. split; [done|]. by apply Z.eqb_eq.
    + rewrite drop_app_length. repeat split; try done.
      * intros (r' & [= <-] & Hr). apply Z.eqb_neq in Hs. done.
      * repeat constructor. done.
  - rewrite drop_app_length. repeat split; try done.
    + by intros (r' & ? & _).
    + repeat constructor. done.
Qed.


End HandlerProperties.

Section ThreadHandlerProperties.
Import Http ApiRest ChatView.

Lemma fmap_imap_forget {A B C} (f : B -> C) (g : nat -> A -> B) (h : A -> C)
    (l : list A) :
  (forall k x, f (g k x) = h x) -> f <$> imap g l = h <$> l.
Proof.
  revert g. induction l as [|x l IH]; intros g Hg; [done|].
  rewrite imap_cons. csimpl. rewrite Hg. f_equal. apply IH. intros k y. apply Hg.
Qed.

(** X8. Loading a thread sends one [GET /threads/<id>]. If it succeeds, the
    transcript is replaced by the messages of the thread, in their order,
    with their ids, texts, senders, reasoning steps and agent contexts,
    and the title becomes the title of the thread. If it fails,
    transcript and title stay as they are and one toast, "Load Failed", is
    raised. Neither way is the active thread or the loading flag
    touched. *)
Theorem loadThreadMessages_replaces_transcript :
  forall (backend : Request -> Outcome (Response ThreadDetail))
         (parseDate : string -> Z) (clock : nat -> Z) (threadId : string) (v : View),
    let req := mkRequest GET ("/threads/" +:+ threadId) None in
    exists v' : View,
      run backend (loadThreadMessages parseDate clock threadId v) = ([req], Resolved v')
      /\ match backend req with
         | Resolved r =>
             let ms := ChatInterface.messages (chat v') in
             ChatInterface.id <$> ms = tm_id <$> td_messages (data r)
             /\ ChatInterface.text <$> ms = tm_text <$> td_messages (data r)
             /\ ChatInterface.sender <$> ms = tm_sender <$> td_messages (data r)
             /\ ChatInterface.reasoningSteps <$> ms
                = tm_reasoning_steps <$> td_messages (data r)
             /\ ChatInterface.agentContext <$> ms
                = tm_agent_context <$> td_messages (data r)
             /\ activeThreadTitle v' = td_title (data r)
             /\ ChatInterface.toasts (chat v') = ChatInterface.toasts (chat v)
         | Rejected _ =>
             ChatInterface.messages (chat v') = ChatInterface.messages (chat v)
             /\ activeThreadTitle v' = activeThreadTitle v
             /\ ChatInterface.toasts (chat v') =
                ChatInterface.toasts (chat v) ++
                [ChatInterface.mkToast "Load Failed"
                   "Failed to load conversation messages" "error" 5000]
         end
      /\ ChatInterface.activeThreadId (chat v') = ChatInterface.activeThreadId (chat v)
      /\ ChatInterface.isLoading (chat v') = ChatInterface.isLoading (chat v)
      /\ threads v' = threads v.
Proof.
  intros backend parseDate clock threadId v req.
  unfold loadThreadMessages, chatAPI.getThread. simpl. fold req.
  destruct (backend req) as [r|e]; eexists; (split; [reflexivity|]); simpl.
  - repeat split; by apply fmap_imap_forget.
  - by repeat split.
Qed.

(** X9. Clearing the preferences sends one [POST /preferences/clear]
    without a body and raises exactly one toast: "Preferences Cleared" if
    the request succeeded, "Clear Failed" if not. Either way the loading
    flag is down afterwards, and transcript, threads and active thread
    are as before. *)
Theorem handleClearPreferences_always_settles :
  forall (backend : Request -> Outcome (Response MessageReply)) (v : View),
    let req := mkRequest POST "/preferences/clear" None in
    exists v' : View,
      run backend (handleClearPreferences v) = ([req], Resolved v')
      /\ ChatInterface.isLoading (chat v') = false
      /\ ChatInterface.toasts (chat v') =
         ChatInterface.toasts (chat v) ++
         [match backend req with
          | Resolved _ =>
              ChatInterface.mkToast "Preferences Cleared"
                "All stored preferences have been cleared" "success" 3000
          | Rejected _ =>
              ChatInterface.mkToast "Clear Failed" "Failed to clear preferences"
                "error" 5000
          end]
      /\ ChatInterface.messages (chat v') = ChatInterface.messages (chat v)
      /\ ChatInterface.activeThreadId (chat v') = ChatInterface.activeThreadId (chat v)
      /\ threads v' = threads v.
Proof.
  intros backend v req.
  unfold handleClearPreferences, chatAPI.clearPreferences. simpl. fold req.
  destruct (backend req) as [r|e]; eexists; (split; [reflexivity|]); simpl;
    by repeat split.
Qed.

(** X10. Deleting a thread from the sidebar, with the handler of the chat
    interface as [onDeleteThread]. While a deletion is in flight nothing
    happens. Otherwise one [DELETE /threads/<id>] is sent, one toast is
    raised and the in-flight mark is cleared again. Only if the request
    succeeded is the chat interface told: it reloads the threads and, if
    the deleted thread was the active one, starts a new conversation
    (no active thread, empty transcript, default title, sidebar closed);
    a thread that was not active leaves transcript and active thread
    alone. A failed deletion changes nothing but the toasts. *)
Theorem sidebar_delete_resets_active_thread :
  forall (backend : Request -> Outcome (Response string))
         (threadId : string) (s : Sidebar.State) (v : View),
    let req := mkRequest DELETE ("/threads/" +:+ threadId) None in
    let result := run backend (Sidebar.handleDeleteThread handleDeleteThread
                                 threadId (s, v)) in
    if ChatInterface.truthy_opt (Sidebar.deletingThreadId s)
    then result = ([], Resolved (s, v))
    else exists v' : View,
      result = ([req], Resolved (Sidebar.mkState None, v'))
      /\ length (ChatInterface.toasts (chat v'))
         = S (length (ChatInterface.toasts (chat v)))
      /\ match backend req with
         | Resolved _ =>
             ChatInterface.started (chat v')
             = ChatInterface.started (chat v) ++ [ChatInterface.LoadThreads]
             /\ if bool_decide (ChatInterface.activeThreadId (chat v) = Some threadId)
                then ChatInterface.activeThreadId (chat v') = None
                     /\ ChatInterface.messages (chat v') = []
                     /\ activeThreadTitle v' = "New Conversation"
                     /\ sidebarOpen v' = false
                else ChatInterface.activeThreadId (chat v')
                     = ChatInterface.activeThreadId (chat v)
                     /\ ChatInterface.messages (chat v')
                        = ChatInterface.messages (chat v)
                     /\ activeThreadTitle v' = activeThreadTitle v
                     /\ sidebarOpen v' = sidebarOpen v
         | Rejected _ =>
             ChatInterface.started (chat v') = ChatInterface.started (chat v)
             /\ ChatInterface.activeThreadId (chat v')
                = ChatInterface.activeThreadId (chat v)
             /\ ChatInterface.messages (chat v') = ChatInterface.messages (chat v)
             /\ activeThreadTitle v' = activeThreadTitle v
             /\ sidebarOpen v' = sidebarOpen v
         end.
Proof.
  intros backend threadId s v req result. subst result.
  unfold Sidebar.handleDeleteThread. simpl.
  destruct (ChatInterface.truthy_opt (Sidebar.deletingThreadId s)); [done|].
  unfold Api.chatAPI.deleteThread. simpl. fold req.
  destruct (backend req) as [r|e]; eexists; (split; [reflexivity|]); simpl.
  - unfold handleDeleteThread, is_active. simpl.
    case_bool_decide; simpl; (split; [rewrite length_app; simpl; lia|]);
      by repeat split.
  - split; [rewrite length_app; simpl; lia|]. by repeat split.
Qed.

End ThreadHandlerProperties.

(* ===================================================================== *)
(** * Further properties of the memory-graph view *)
(* ===================================================================== *)

Section GraphFilterProperties.
Import Api MemoryGraphView GraphStats.

Lemma filter_of_only t t' :
  filter_of (only t) t' = true <-> t' = t.
Proof. by destruct t, t'. Qed.

(** X11. The three memory types partition the nodes of the graph: with
    all filters on every node is shown, with all off none, and the nodes
    shown under "short-term only", "user-profile only" and "procedural
    only" are, each time, the nodes of that type; their numbers add up
    to the number of nodes. *)
Theorem memory_types_partition_nodes :
  forall (g : MemoryGraph) (loading : bool) (err : option string)
         (selNode : option GraphNode) (selRel : option GraphRelationship),
    let shown := fun filters =>
      filteredNodes (mkState loading (Some g) err selNode selRel filters) in
    shown (mkFilters true true true) = nodes g
    /\ shown (mkFilters false false false) = []
    /\ (forall t node, node ∈ shown (only t) <->
                       node ∈ nodes g /\ getNodeMemoryType node = t)
    /\ length (shown (only short_term)) + length (shown (only user_profile))
       + length (shown (only procedural)) = length (nodes g).
Proof.
  intros g loading err selNode selRel shown. subst shown.
  unfold filteredNodes. simpl.
  split; [|split; [|split]].
  - induction (nodes g) as [|n l IH]; [done|]. simpl.
    rewrite IH. by destruct (getNodeMemoryType n).
  - induction (nodes g) as [|n l IH]; [done|]. simpl.
    rewrite IH. by destruct (getNodeMemoryType n).
  - intros t node. by rewrite !list_elem_of_In, filter_In, filter_of_only.
  - induction (nodes g) as [|n l IH]; [done|]. simpl.
    destruct (getNodeMemoryType n); simpl; lia.
Qed.

Lemma includes_same_labels (a b : GraphNode) s :
  (list_to_set (labels a) : gset string) = list_to_set (labels b) ->
  includes (labels a) s = includes (labels b) s.
Proof.
  intros Heq. unfold includes. apply bool_decide_ext.
  by rewrite <- !(elem_of_list_to_set (C:=gset string)), Heq.
Qed.

(** The label of last resort is none of the labels that the node lacks. *)
Lemma default_label_unknown (x : GraphNode) k :
  includes (labels x) k = false -> k <> "Unknown" ->
  (Js.or_else (head (labels x)) "Unknown" =? k)%string = false.
Proof.
  intros Hk Hne. apply String.eqb_neq. intros Heq.
  unfold includes in Hk. apply bool_decide_eq_false in Hk. apply Hk.
  destruct (labels x) as [|s l]; simpl in Heq; [congruence|].
  destruct (Js.truthy s); [|congruence]. subst. by left.
Qed.

(** X12. How a node is classified does not depend on the order (or the
    repetition) of its labels: two nodes with the same set of labels have
    the same memory type and the same base size, although their primary
    labels may differ when none of the known labels is among them. *)
Theorem classification_ignores_label_order :
  forall a b : GraphNode,
    (list_to_set (labels a) : gset string) = list_to_set (labels b) ->
    getNodeMemoryType a = getNodeMemoryType b
    /\ base_size (getNodeLabel a) = base_size (getNodeLabel b).
Proof.
  intros a b Heq.
  assert (Hcase :
    getNodeLabel a = getNodeLabel b
    \/ Forall (fun k => (getNodeLabel a =? k)%string = false
                        /\ (getNodeLabel b =? k)%string = false)
              ["Thread"; "Message"; "ReasoningStep"; "ToolCall"; "Tool";
               "UserPreference"; "PreferenceCategory"; "Location"; "Person";
               "Organization"; "Topic"]).
  { unfold getNodeLabel.
    repeat match goal with
           | |- context [includes (labels a) ?k] =>
               rewrite (includes_same_labels a b k Heq)
           end.
    repeat (match goal with
            | |- context [if includes (labels b) ?k then _ else _] =>
                destruct (includes (labels b) k) eqn:?; [by left|]
            end).
    right.
    repeat (apply Forall_cons; split;
            [split; apply default_label_unknown; try done;
             by rewrite (includes_same_labels a b _ Heq)|]).
    constructor. }
  unfold getNodeMemoryType, base_size.
  destruct Hcase as [Hl|Hall]; [by rewrite Hl|].
  repeat (apply Forall_cons in Hall as [[-> ->] Hall]).
  done.
Qed.

Lemma classification_ignores_label_order_witness :
  let a := mkGraphNode "n1" ["Article"; "Source"; "Article"] [] in
  let b := mkGraphNode "n2" ["Source"; "Article"] [] in
  (list_to_set (labels a) : gset string) = list_to_set (labels b)
  /\ getNodeMemoryType a = getNodeMemoryType b
  /\ base_size (getNodeLabel a) = base_size (getNodeLabel b).
Proof.
  intros a b.
  assert (H : (list_to_set (labels a) : gset string) = list_to_set (labels b))
    by (vm_compute; reflexivity).
  split; [exact H|]. exact (classification_ignores_label_order a b H).
Defined.

End GraphFilterProperties.

Section GraphToggleProperties.
Import Api MemoryGraphView GraphStats.

Lemma filter_all_on (l : list GraphNode) :
  List.filter (fun node => filter_of (mkFilters true true true)
                                     (getNodeMemoryType node)) l = l.
Proof.
  induction l as [|n l IH]; [done|]. simpl.
  rewrite IH. by destruct (getNodeMemoryType n).
Qed.

Lemma filter_all_off (l : list GraphNode) :
  List.filter (fun node => filter_of (mkFilters false false false)
                                     (getNodeMemoryType node)) l = [].
Proof.
  induction l as [|n l IH]; [done|]. simpl.
  rewrite IH. by destruct (getNodeMemoryType n).
Qed.

Lemma filter_nothing_visible (ids : gset string) (l : list GraphRelationship) :
  ids = ∅ ->
  List.filter (fun rel => has ids (from rel) && has ids (to rel)) l = [].
Proof. intros ->. induction l as [|r l IH]; [done|]. simpl. by rewrite IH. Qed.

(** X13. The three filter buttons are independent switches: pressing one
    twice gives back the state, pressing two of them in either order
    gives the same state, and a button changes what is shown of its own
    memory type only. *)
Theorem filter_buttons_are_switches :
  forall (st : State) (t t' : MemoryType),
    step (step st (ToggleFilter t)) (ToggleFilter t) = st
    /\ step (step st (ToggleFilter t)) (ToggleFilter t')
       = step (step st (ToggleFilter t')) (ToggleFilter t)
    /\ (forall node, getNodeMemoryType node <> t ->
          (node ∈ filteredNodes (step st (ToggleFilter t))
           <-> node ∈ filteredNodes st))
    /\ (forall node, getNodeMemoryType node = t ->
          node ∈ nodes (default (mkMemoryGraph [] []) (graphData st)) ->
          (node ∈ filteredNodes (step st (ToggleFilter t))
           <-> node ∉ filteredNodes st)).
Proof.
  intros [l g e sn sr [a b c]] t t'.
  split; [|split; [|split]].
  - destruct t; simpl; by rewrite negb_involutive.
  - by destruct t, t'.
  - intros node Hne. unfold filteredNodes. simpl.
    destruct g as [g|]; [|done].
    rewrite !list_elem_of_In, !filter_In.
    destruct t, (getNodeMemoryType node); try done.
  - intros node Ht Hin. unfold filteredNodes. simpl in *.
    destruct g as [g|]; simpl in Hin; [|by apply elem_of_nil in Hin].
    rewrite !list_elem_of_In, !filter_In. rewrite list_elem_of_In in Hin.
    rewrite Ht. destruct t; simpl.
    + destruct a; simpl; split; try tauto; try (intros [_ ?]; done).
      intros _ [_ ?]; done.
    + destruct b; simpl; split; try tauto; try (intros [_ ?]; done).
      intros _ [_ ?]; done.
    + destruct c; simpl; split; try tauto; try (intros [_ ?]; done).
      intros _ [_ ?]; done.
Qed.

(** X14. "Select All / Deselect All" never leaves a mixed setting. If all
    three filters were on, it switches all off: no node and no
    relationship is shown and the button reads "Select All". In every
    other case it switches all on: every node of the graph is shown,
    with the relationships whose two ends are nodes of the graph, and the
    button reads "Deselect All". The selection is not touched. *)
Theorem toggle_all_shows_all_or_nothing :
  forall st : State,
    let st' := step st ToggleAll in
    let g := default (mkMemoryGraph [] []) (graphData st) in
    let ids : gset string := list_to_set (List.map id (nodes g)) in
    selectedNode st' = selectedNode st
    /\ selectedRelationship st' = selectedRelationship st
    /\ if select_all_label (memoryFilters st) =? "Deselect All"
       then memoryFilters st = mkFilters true true true
            /\ filteredNodes st' = [] /\ filteredRelationships st' = []
            /\ select_all_label (memoryFilters st') = "Select All"
       else memoryFilters st <> mkFilters true true true
            /\ filteredNodes st' = nodes g
            /\ filteredRelationships st'
               = List.filter (fun rel => has ids (from rel) && has ids (to rel))
                             (relationships g)
            /\ select_all_label (memoryFilters st') = "Deselect All".
Proof.
  intros [l g e sn sr [a b c]]. simpl.
  split; [done|]. split; [done|].
  unfold select_all_label, filteredRelationships, visibleNodeIds, filteredNodes.
  simpl.
  destruct (a && b && c) eqn:Hall; simpl.
  - apply andb_true_iff in Hall as [[-> ->]%andb_true_iff ->].
    split; [done|]. destruct g as [g|]; simpl; [|done].
    rewrite filter_all_off. split; [done|]. split; [|done].
    by apply filter_nothing_visible.
  - split; [intros [= -> -> ->]; done|].
    destruct g as [g|]; simpl; [|done].
    by rewrite filter_all_on.
Qed.

(** X15. Filtering does not clear the selection. When the selected node
    is shown and the filter of its memory type is switched off, the node
    stays selected (its properties stay displayed) although the graph
    no longer shows it. *)
Theorem selection_survives_filtering :
  forall (getNodeCaption : GraphNode -> string) (st : State) (n : GraphNode),
    selectedNode st = Some n ->
    n ∈ filteredNodes st ->
    let st' := step st (ToggleFilter (getNodeMemoryType n)) in
    selectedNode st' = Some n
    /\ (n ∉ filteredNodes st')
    /\ Forall (fun v => node_data v <> Some n) (nvlNodes getNodeCaption st').
Proof.
  intros cap st n Hsel Hin st'.
  assert (Hout : n ∉ filteredNodes st').
  { subst st'. revert Hin. unfold filteredNodes. simpl.
    destruct (graphData st) as [g|]; [|by intros ?%elem_of_nil].
    rewrite !list_elem_of_In, !filter_In. intros [_ Hon] [_ Hoff].
    destruct (memoryFilters st) as [a b c].
    destruct (getNodeMemoryType n); simpl in *; rewrite Hon in Hoff; done. }
  split; [done|]. split; [done|].
  apply Forall_forall. intros v Hv Hdata. apply Hout.
  unfold nvlNodes in Hv. rewrite list_elem_of_In in Hv.
  apply in_map_iff in Hv as (node & <- & Hnode). simpl in Hdata.
  injection Hdata as ->. by apply list_elem_of_In.
Qed.

Lemma selection_survives_filtering_witness :
  let n := mkGraphNode "4:1" ["Tool"] [] in
  let st := mkState false (Some (mkMemoryGraph [n] [])) None (Some n) None
                    (mkFilters true true true) in
  let st' := step st (ToggleFilter (getNodeMemoryType n)) in
  (selectedNode st = Some n /\ n ∈ filteredNodes st)
  /\ selectedNode st' = Some n
  /\ (n ∉ filteredNodes st')
  /\ Forall (fun v => node_data v <> Some n) (nvlNodes (fun _ => "tool") st').
Proof.
  intros n st st'.
  assert (H1 : selectedNode st = Some n) by reflexivity.
  assert (H2 : n ∈ filteredNodes st) by (vm_compute; left).
  split; [by split|].
  exact (selection_survives_filtering (fun _ => "tool") st n H1 H2).
Defined.

(** X16. A click on a node that the graph shows selects the node behind
    it and nothing else: no relationship is selected or highlighted any
    more, the same nodes are shown as before, and the clicked node is
    rendered highlighted, five units larger than the base size of its
    label. *)
Theorem node_click_highlights :
  forall (getNodeCaption : GraphNode -> string) (st : State) (v : NvlNode),
    v ∈ nvlNodes getNodeCaption st ->
    let st' := step st (NodeClick v) in
    exists n : GraphNode,
      node_data v = Some n /\ n ∈ filteredNodes st
      /\ selectedNode st' = Some n
      /\ selectedRelationship st' = None
      /\ filteredNodes st' = filteredNodes st
      /\ (exists v', v' ∈ nvlNodes getNodeCaption st'
                     /\ node_data v' = Some n /\ selected v' = true
                     /\ size v' = (base_size (getNodeLabel n) + 5)%Z
                     /\ color v' = color v /\ caption v' = caption v)
      /\ Forall (fun r => nvl_selected r = false) (nvlRelationships st').
Proof.
  intros cap st v Hv st'.
  unfold nvlNodes in Hv. rewrite list_elem_of_In in Hv.
  apply in_map_iff in Hv as (n & <- & Hn).
  exists n. subst st'. simpl.
  split; [done|]. split; [by apply list_elem_of_In|].
  split; [done|]. split; [done|]. split; [done|]. split.
  - eexists. split.
    + unfold nvlNodes. rewrite list_elem_of_In. apply in_map_iff.
      exists n. split; [reflexivity|]. exact Hn.
    + unfold is_selected_node. simpl. rewrite String.eqb_refl. by repeat split.
  - apply Forall_forall. intros r Hr.
    unfold nvlRelationships in Hr. rewrite list_elem_of_In in Hr.
    by apply in_map_iff in Hr as (rel & <- & _).
Qed.

Lemma node_click_highlights_witness :
  let n := mkGraphNode "4:7" ["Message"] [] in
  let st := mkState false (Some (mkMemoryGraph [n] [])) None None None
                    (mkFilters true true true) in
  let v := mkNvlNode "4:7" "hello" 18 "#57C7E3" false (Some n) in
  let st' := step st (NodeClick v) in
  v ∈ nvlNodes (fun _ => "hello") st
  /\ exists n : GraphNode,
      node_data v = Some n /\ n ∈ filteredNodes st
      /\ selectedNode st' = Some n
      /\ selectedRelationship st' = None
      /\ filteredNodes st' = filteredNodes st
      /\ (exists v', v' ∈ nvlNodes (fun _ => "hello") st'
                     /\ node_data v' = Some n /\ selected v' = true
                     /\ size v' = (base_size (getNodeLabel n) + 5)%Z
                     /\ color v' = color v /\ caption v' = caption v)
      /\ Forall (fun r => nvl_selected r = false) (nvlRelationships st').
Proof.
  intros n st v st'.
  assert (H : v ∈ nvlNodes (fun _ => "hello") st) by (vm_compute; left).
  split; [exact H|].
  exact (node_click_highlights (fun _ => "hello") st v H).
Defined.

End GraphToggleProperties.

Section GraphLoadProperties.
Import Http Api MemoryGraphView GraphStats GraphLoad.

Lemma or_else_truthy o d : Js.truthy d = true -> Js.truthy (Js.or_else o d) = true.
Proof.
  intros Hd. destruct o as [s|]; simpl; [|done].
  by destruct (Js.truthy s) eqn:Hs.
Qed.

(** Where the view stands with respect to loading: either nothing was
    ever started or finished, or a load is in flight, or there is an
    error message to show, or there is a graph with nodes. *)
Lemma run_load_state evs :
  (Forall (fun ev => is_load_event ev = false) evs
   /\ isLoading (run evs) = false /\ error (run evs) = None
   /\ graphData (run evs) = None)
  \/ (Exists (fun ev => is_load_event ev = true) evs
      /\ (isLoading (run evs) = true
          \/ (exists msg, error (run evs) = Some msg /\ Js.truthy msg = true)
          \/ (exists g, graphData (run evs) = Some g /\ nodes g <> []))).
Proof.
  unfold run. induction evs as [|ev evs IH] using rev_ind.
  { left. by repeat split. }
  rewrite fold_left_app. simpl.
  set (st := fold_left step evs initial) in *.
  destruct (is_load_event ev) eqn:Hev.
  - right. split; [apply Exists_app; right; by constructor|].
    destruct ev as [|d|err| | | | |]; try discriminate; simpl.
    + by left.
    + right. destruct (nodes d) as [|n l] eqn:Hn; simpl.
      * left. by eexists.
      * right. exists d. by rewrite Hn.
    + right. left. eexists. split; [done|]. by apply or_else_truthy.
  - assert (Hsame : isLoading (step st ev) = isLoading st
                    /\ error (step st ev) = error st
                    /\ graphData (step st ev) = graphData st).
    { destruct ev as [| | |v|r| | |]; try discriminate; simpl; try done.
      - by destruct (node_data v).
      - destruct (graphData st) as [g|] eqn:Hg; [|by rewrite Hg].
        destruct (List.find _ _); simpl; by rewrite ?Hg. }
    destruct Hsame as (-> & -> & ->).
    destruct IH as [(Hall & H)|(Hex & H)].
    + left. split; [|done]. apply Forall_app. split; [done|]. by constructor.
    + right. split; [|done]. apply Exists_app. by left.
Qed.

(** X17. The graph container is empty (no spinner, no message, no graph)
    exactly as long as no load was started or has ended; in particular
    then there is no graph data. After that, whatever is clicked or
    toggled, it shows the spinner, an error message or the graph. *)
Theorem blank_only_before_first_load :
  forall evs : list Event,
    body (run evs) = Blank
    <-> Forall (fun ev => is_load_event ev = false) evs.
Proof.
  intros evs. unfold body.
  destruct (run_load_state evs) as [(Hall & Hl & He & Hg)|(Hex & H)].
  - by rewrite Hl, He, Hg.
  - split.
    + destruct H as [->|[(msg & -> & Hmsg)|(g & Hg & Hn)]]; [done| |].
      * destruct (isLoading (run evs)); [done|]. by rewrite Hmsg.
      * rewrite Hg. destruct (nodes g) as [|n l] eqn:Hnodes; [done|]. simpl.
        destruct (isLoading (run evs)); [done|].
        destruct (error (run evs)) as [msg|]; [|done].
        by destruct (Js.truthy msg).
    + intros Hall. exfalso. apply Exists_exists in Hex as (ev & Hin & Hev).
      rewrite Forall_forall in Hall. specialize (Hall ev Hin). congruence.
Qed.

(** X18. One call of [loadGraphData] is the event "load started" followed
    by the event with which the request ended. It sends one
    [GET /preferences/graph], never throws, and afterwards the container
    shows the graph if the request gave a graph with nodes, and an error
    message otherwise: the message for the empty graph, the detail of the
    failure, or the default message. The filters are kept; the selection
    is gone. *)
Theorem loadGraphData_settles :
  forall (backend : Request -> Outcome (Response MemoryGraph)) (st : State),
    let req := mkRequest GET "/preferences/graph" None in
    let st' := step (step st LoadGraphData)
                    match backend req with
                    | Resolved r => GraphLoaded (data r)
                    | Rejected e => GraphLoadFailed e
                    end in
    Http.run backend (loadGraphData st) = ([req], Resolved st')
    /\ memoryFilters st' = memoryFilters st
    /\ selectedNode st' = None /\ selectedRelationship st' = None
    /\ body st' =
       match backend req with
       | Resolved r =>
           if (length (nodes (data r)) =? 0)%nat
           then ErrorPane no_data_message
           else Canvas (data r)
       | Rejected e =>
           ErrorPane (Js.or_else (err_detail e) "Failed to load memory graph")
       end.
Proof.
  intros backend st req st'. subst st'.
  unfold loadGraphData, ApiRest.chatAPI.getMemoryGraph. simpl. fold req.
  destruct (backend req) as [r|e]; simpl.
  - destruct (nodes (data r)) as [|n l] eqn:Hn; simpl;
      unfold body; simpl; by rewrite ?Hn.
  - unfold body. simpl.
    by rewrite (or_else_truthy (err_detail e) "Failed to load memory graph").
Qed.

End GraphLoadProperties.

Section GraphStatsProperties.
Import Api MemoryGraphView GraphStats.

(** The counts in [m] are those of the keys [seen]. *)
Lemma fold_bump_counts (keys seen : list string) (m : gmap string nat) :
  Forall (fun k => k ∉ inherited_keys) keys ->
  (forall k, m !! k = if (occurrences k seen =? 0)%nat then None
                      else Some (occurrences k seen)) ->
  exists m', fold_left bump keys (Some m) = Some m'
    /\ forall k, m' !! k = if (occurrences k (seen ++ keys) =? 0)%nat then None
                           else Some (occurrences k (seen ++ keys)).
Proof.
  revert seen m. induction keys as [|key keys IH]; intros seen m Hkeys Hm.
  { exists m. split; [done|]. intros k. by rewrite app_nil_r. }
  apply Forall_cons in Hkeys as [Hkey Hkeys]. simpl.
  rewrite bool_decide_eq_false_2 by done.
  destruct (IH (seen ++ [key]) (<[key := S (default 0 (m !! key))]> m) Hkeys)
    as (m' & Hfold & Hm').
  - intros k. unfold occurrences in *. rewrite List.filter_app, length_app. simpl.
    destruct (decide (k = key)) as [->|Hne].
    + rewrite lookup_insert_eq, Hm. rewrite bool_decide_eq_true_2 by done. simpl.
      destruct (length _ =? 0)%nat eqn:Hz.
      * apply Nat.eqb_eq in Hz. rewrite Hz. simpl. done.
      * simpl. replace (_ + 1 =? 0)%nat with false
          by (symmetry; apply Nat.eqb_neq; lia).
        f_equal. lia.
    + rewrite lookup_insert_ne by done.
      rewrite (bool_decide_eq_false_2 (key = k)) by done. simpl.
      by rewrite Nat.add_0_r.
  - exists m'. split; [done|]. intros k. by rewrite (Hm' k), <- app_assoc.
Qed.

Lemma fold_nodes_counts (ns : list GraphNode) (seen : list string)
    (m : gmap string nat) :
  Forall (fun k => k ∉ inherited_keys) (concat (labels <$> ns)) ->
  (forall k, m !! k = if (occurrences k seen =? 0)%nat then None
                      else Some (occurrences k seen)) ->
  exists m',
    fold_left (fun acc node => fold_left bump (labels node) acc) ns (Some m) = Some m'
    /\ forall k, m' !! k =
         if (occurrences k (seen ++ concat (labels <$> ns)) =? 0)%nat then None
         else Some (occurrences k (seen ++ concat (labels <$> ns))).
Proof.
  revert seen m. induction ns as [|n ns IH]; intros seen m Hkeys Hm.
  { exists m. split; [done|]. intros k. simpl. by rewrite app_nil_r. }
  csimpl in Hkeys. apply Forall_app in Hkeys as [Hn Hns]. simpl.
  destruct (fold_bump_counts (labels n) seen m Hn Hm) as (m1 & -> & Hm1).
  destruct (IH (seen ++ labels n) m1 Hns Hm1) as (m' & Hfold & Hm').
  exists m'. split; [done|]. intros k. csimpl. by rewrite (Hm' k), <- app_assoc.
Qed.

Lemma fold_relationship_types (rels : list GraphRelationship)
    (acc : option (gmap string nat)) :
  fold_left (fun acc rel => bump acc (type rel)) rels acc
  = fold_left bump (type <$> rels) acc.
Proof.
  revert acc. induction rels as [|r l IH]; intros acc; [done|].
  csimpl. apply IH.
Qed.

(** X19. The statistics count labels and relationship types. Provided no
    label and no type is a name that a plain object inherits
    ("constructor", "toString", ...), the node statistics have exactly
    the labels that occur, each with its number of occurrences over all
    nodes (a node with several labels counts for each), and the
    relationship statistics have exactly the types that occur, each with
    the number of relationships of the type. *)
Theorem graphStats_counts_occurrences :
  forall (st : State) (g : MemoryGraph),
    graphData st = Some g ->
    Forall (fun k => k ∉ inherited_keys) (concat (labels <$> nodes g)) ->
    Forall (fun k => k ∉ inherited_keys) (type <$> relationships g) ->
    exists nodeCounts relCounts : gmap string nat,
      graphStats st = (Some nodeCounts, Some relCounts)
      /\ (forall k, nodeCounts !! k =
            let n := occurrences k (concat (labels <$> nodes g)) in
            if (n =? 0)%nat then None else Some n)
      /\ (forall k, relCounts !! k =
            let n := occurrences k (type <$> relationships g) in
            if (n =? 0)%nat then None else Some n).
Proof.
  intros st g Hg Hlabels Htypes. unfold graphStats. rewrite Hg.
  destruct (fold_nodes_counts (nodes g) [] ∅ Hlabels) as (nm & Hn & Hnm).
  { intros k. by rewrite lookup_empty. }
  pose proof (fold_relationship_types (relationships g) (Some ∅)) as Hrel.
  destruct (fold_bump_counts (type <$> relationships g) [] ∅ Htypes) as (rm & Hr & Hrm).
  { intros k. by rewrite lookup_empty. }
  exists nm, rm. unfold nodeStats, relStats. rewrite Hn, Hrel, Hr.
  split; [done|]. split; intros k; simpl.
  - apply Hnm.
  - apply Hrm.
Qed.

Lemma graphStats_counts_occurrences_witness :
  let g := mkMemoryGraph
             [mkGraphNode "1" ["Message"; "Memory"] [];
              mkGraphNode "2" ["Message"] [];
              mkGraphNode "3" ["Tool"] []]
             [mkGraphRelationship "r1" "1" "2" "NEXT" [];
              mkGraphRelationship "r2" "2" "3" "USES" [];
              mkGraphRelationship "r3" "1" "3" "USES" []] in
  let st := mkState false (Some g) None None None (mkFilters true true true) in
  (graphData st = Some g
   /\ Forall (fun k => k ∉ inherited_keys) (concat (labels <$> nodes g))
   /\ Forall (fun k => k ∉ inherited_keys) (type <$> relationships g))
  /\ exists nodeCounts relCounts : gmap string nat,
      graphStats st = (Some nodeCounts, Some relCounts)
      /\ (forall k, nodeCounts !! k =
            let n := occurrences k (concat (labels <$> nodes g)) in
            if (n =? 0)%nat then None else Some n)
      /\ (forall k, relCounts !! k =
            let n := occurrences k (type <$> relationships g) in
            if (n =? 0)%nat then None else Some n).
Proof.
  intros g st.
  assert (H1 : graphData st = Some g) by reflexivity.
  assert (H2 : Forall (fun k => k ∉ inherited_keys) (concat (labels <$> nodes g))).
  { unfold g. simpl. repeat (apply Forall_cons; split;
      [apply (bool_decide_unpack _); vm_compute; exact I|]).
    constructor. }
  assert (H3 : Forall (fun k => k ∉ inherited_keys) (type <$> relationships g)).
  { unfold g. simpl. repeat (apply Forall_cons; split;
      [apply (bool_decide_unpack _); vm_compute; exact I|]).
    constructor. }
  split; [by repeat split|].
  exact (graphStats_counts_occurrences st g H1 H2 H3).
Defined.

End GraphStatsProperties.

(* ===================================================================== *)
(** * The operations of the client on the wire *)
(* ===================================================================== *)

Section WireProperties.
Import Http ApiRest Wire.





End WireProperties.

(* ===================================================================== *)
(** * The loads in the background and the keyboard *)
(* ===================================================================== *)

Section BackgroundLoadProperties.
Import Http ApiRest ChatView.

(** X21. The two loads that run when the page is mounted never raise a
    toast and never touch the transcript. [loadThreads] sends one
    [GET /threads] and replaces the list of threads by the answer;
    [loadLastActiveThread] sends one [GET /threads/last-active] and, if
    the answer is a thread, makes it the active one with its title. If
    the request fails, or the answer is [null], the view stays as it is;
    a failure leaves one line on the console. *)
Theorem background_loads_are_silent :
  forall v : View,
    (forall backend : Request -> Outcome (Response (list ThreadInfo)),
       let req := mkRequest GET "/threads" None in
       exists v' : View,
         run backend (loadThreads v) = ([req], Resolved v')
         /\ chat v' = chat v
         /\ activeThreadTitle v' = activeThreadTitle v
         /\ match backend req with
            | Resolved r => threads v' = data r /\ console v' = console v
            | Rejected _ => v' = console_error "Failed to load threads:" v
                            /\ threads v' = threads v
            end)
    /\ (forall backend : Request -> Outcome (Response (option ThreadInfo)),
          let req := mkRequest GET "/threads/last-active" None in
          exists v' : View,
            run backend (loadLastActiveThread v) = ([req], Resolved v')
            /\ ChatInterface.toasts (chat v') = ChatInterface.toasts (chat v)
            /\ ChatInterface.messages (chat v') = ChatInterface.messages (chat v)
            /\ threads v' = threads v
            /\ match backend req with
               | Resolved r =>
                   console v' = console v
                   /\ match data r with
                      | Some t =>
                          ChatInterface.activeThreadId (chat v') = Some (ti_id t)
                          /\ activeThreadTitle v' = ti_title t
                      | None => v' = v
                      end
               | Rejected _ =>
                   v' = console_error "Failed to load last active thread:" v
                   /\ ChatInterface.activeThreadId (chat v')
                      = ChatInterface.activeThreadId (chat v)
                   /\ activeThreadTitle v' = activeThreadTitle v
               end).
Proof.
  intros v. split.
  - intros backend req. unfold loadThreads, chatAPI.getThreads. simpl. fold req.
    destruct (backend req) as [r|e]; eexists; (split; [reflexivity|]);
      by repeat split.
  - intros backend req.
    unfold loadLastActiveThread, chatAPI.getLastActiveThread. simpl. fold req.
    destruct (backend req) as [r|e]; eexists; (split; [reflexivity|]).
    + destruct (data r) as [t|]; by repeat split.
    + by repeat split.
Qed.


End BackgroundLoadProperties.
